(** * The Redis device manager of adam: trust cache, onboarding, registry

    A shallow embedding of [pkg/driver/device_manager_redis.go].  The
    manager keeps an in-memory cache of onboarding certificates, device
    certificates and devices, refreshed from a Redis database on a
    time-to-live, and stores certificates, serials, configurations and
    telemetry streams in that database.

    Go code is embedded as a state-and-panic monad over the pair of the
    manager's fields and the database.  Everything the program does not
    decide itself is read from an environment: the clock, the failures of
    the connection, the order in which [range] walks a map, the random
    UUIDs.  The libraries the file imports (uuid, pem, x509, msgpack,
    jsonpb) are a class of functions, so that every theorem holds for all
    behaviours of these libraries that satisfy the stated laws. *)

From Stdlib Require Import ZArith Ascii String.
From stdpp Require Import base option list gmap strings.

Local Open Scope string_scope.

(** ** Values that cross the interface *)

(** [uuid.UUID] is an array of sixteen bytes; the number stands for them. *)
Record UUID := mkUUID { uuid_val : N }.

#[global] Instance UUID_eq_dec : EqDecision UUID.
Proof. solve_decision. Defined.

#[global] Instance UUID_countable : Countable UUID.
Proof.
  refine (inj_countable' uuid_val mkUUID _).
  intros [n]. reflexivity.
Defined.

(** [x509.Certificate]: the fields the manager reads.  [Raw] is the DER
    encoding and serves as the identity of the certificate; a Go
    [string(cert.Raw)] is this very byte sequence. *)
Record Certificate := mkCertificate { Raw : string; CommonName : string }.

(** [pem.Block]: only [Bytes] is read. *)
Record pemBlock := mkPemBlock { Bytes : string }.

(** Modelled from the spec: the type [deviceStorage] is declared outside
    this file; the cache maps a UUID to {onboarding cert, serial}, and the
    source builds it as [deviceStorage{onboard: ..., serial: ...}].  The
    onboarding certificate is a pointer and may be nil. *)
Record deviceStorage := mkDeviceStorage {
  onboard : option Certificate;
  serial : string
}.

(** [config.UUIDandVersion] and [config.EdgeDevConfig]: the identity
    sub-message and the rest of the document, kept opaque. *)
Record UUIDandVersion := mkUUIDandVersion { Uuid : string; Version : string }.
Record EdgeDevConfig := mkEdgeDevConfig {
  Id : option UUIDandVersion;
  ConfigBody : string
}.

(** The telemetry messages: the device identifier and an opaque rest. *)
Record LogBundle := mkLogBundle { LogDevID : string; LogBody : string }.
Record ZInfoMsg := mkZInfoMsg { InfoDevId : string; InfoBody : string }.
Record ZMetricMsg := mkZMetricMsg { MetricDevID : string; MetricBody : string }.

(** [proto.Message]: the interface the stream writer accepts. *)
Inductive Message :=
| MsgLogs (m : LogBundle)
| MsgInfo (m : ZInfoMsg)
| MsgMetrics (m : ZMetricMsg)
| MsgConfig (m : EdgeDevConfig).

(** ** Errors *)

Inductive RedisErr :=
| redis_Nil        (* the key or field does not exist *)
| redis_WrongType  (* the key holds a value of another kind *)
| redis_IO.        (* the connection failed *)

(** A Go [error] value.  [Errorf] keeps the format string of the source
    and the error operands it was given ([None] is a nil error); the other
    operands of the format are not kept. *)
Unset Elimination Schemes.
Inductive error :=
| Errorf (format : string) (causes : list (option error))
| UsedSerialError (err : string)
| InvalidSerialError (err : string)
| InvalidCertError (err : string)
| redis_error (e : RedisErr)
| lib_error (pkg : string).
Set Elimination Schemes.

(** A Go pair [(value, error)] of which exactly one side is meaningful. *)
Inductive Res (A : Type) :=
| Ok (a : A)
| Err (e : error).
Arguments Ok {A} a.
Arguments Err {A} e.

(** ** The database *)

Inductive RValue :=
| RHash (h : gmap string string)
| RStream (es : list (gmap string string)).

(** ** The manager *)

(** The cache fields of [DeviceManagerRedis] and the two fields that
    drive the refresh.  A Go map may be nil: reads see it as empty, an
    assignment to one of its entries panics. *)
Record DeviceManagerRedis := mkDeviceManagerRedis {
  cacheTimeout : Z;
  lastUpdate : Z;
  onboardCerts : option (gmap string (gmap string bool));
  deviceCerts : option (gmap string UUID);
  devices : option (gmap UUID deviceStorage)
}.

(** Reading a possibly nil map. *)
Definition rd {K V} `{Countable K} (m : option (gmap K V)) : gmap K V :=
  default ∅ m.

Record State := mkState {
  mgr : DeviceManagerRedis;
  db : gmap string RValue;
  tick : nat
}.

Definition set_mgr (d : DeviceManagerRedis) (s : State) : State :=
  {| mgr := d; db := db s; tick := tick s |}.
Definition set_db (r : gmap string RValue) (s : State) : State :=
  {| mgr := mgr s; db := r; tick := tick s |}.
Definition bump (s : State) : State :=
  {| mgr := mgr s; db := db s; tick := S (tick s) |}.

Definition set_onboardCerts (m : option (gmap string (gmap string bool)))
    (d : DeviceManagerRedis) : DeviceManagerRedis :=
  {| cacheTimeout := cacheTimeout d; lastUpdate := lastUpdate d;
     onboardCerts := m; deviceCerts := deviceCerts d; devices := devices d |}.
Definition set_deviceCerts (m : option (gmap string UUID))
    (d : DeviceManagerRedis) : DeviceManagerRedis :=
  {| cacheTimeout := cacheTimeout d; lastUpdate := lastUpdate d;
     onboardCerts := onboardCerts d; deviceCerts := m; devices := devices d |}.
Definition set_devices (m : option (gmap UUID deviceStorage))
    (d : DeviceManagerRedis) : DeviceManagerRedis :=
  {| cacheTimeout := cacheTimeout d; lastUpdate := lastUpdate d;
     onboardCerts := onboardCerts d; deviceCerts := deviceCerts d; devices := m |}.
Definition set_lastUpdate (t : Z)
    (d : DeviceManagerRedis) : DeviceManagerRedis :=
  {| cacheTimeout := cacheTimeout d; lastUpdate := t;
     onboardCerts := onboardCerts d; deviceCerts := deviceCerts d;
     devices := devices d |}.
Definition set_cacheTimeout (t : Z)
    (d : DeviceManagerRedis) : DeviceManagerRedis :=
  {| cacheTimeout := t; lastUpdate := lastUpdate d;
     onboardCerts := onboardCerts d; deviceCerts := deviceCerts d;
     devices := devices d |}.

(** ** The environment *)

(** What the program reads from outside, indexed by the number of
    interactions made so far ([tick]): the clock, whether a database call
    fails on the connection, the order of a [range] over a map, the
    outcome of [uuid.NewV4], and how many entries an approximate trim of a
    stream removes. *)
Record Env := mkEnv {
  clock : nat -> Z;
  fault : nat -> bool;
  shuffle : nat -> forall A : Type, list A -> list A;
  rand : nat -> option UUID;
  trim : nat -> nat
}.

(** A [range] visits every entry once, in some order. *)
Definition EnvOK (E : Env) : Prop :=
  forall n (A : Type) (l : list A), shuffle E n A l ≡ₚ l.

(** ** The libraries *)

Class Ext := mkExt {
  uuid_String : UUID -> string;
  uuid_FromString : string -> option UUID;
  pem_Decode : string -> option pemBlock;
  x509_ParseCertificate : string -> option Certificate;
  msgpack_MarshalSerials : list string -> option string;
  msgpack_UnmarshalSerials : string -> option (list string);
  msgpack_MarshalConfig : EdgeDevConfig -> option string;
  msgpack_UnmarshalConfig : string -> option (option EdgeDevConfig);
  jsonpb_Marshal : Message -> option string;
  (** the repository's own [pkg/x509], which is not part of this file *)
  ax_ParseCert : string -> option Certificate;
  ax_PemEncodeCert : string -> string
}.

(** ** The monad of Go code: state, and panics *)

Inductive Outcome (A : Type) :=
| Done (a : A) (s : State)
| Panic (msg : string).
Arguments Done {A} a s.
Arguments Panic {A} msg.

Definition M (A : Type) : Type := State -> Outcome A.

Definition ret {A} (a : A) : M A := fun s => Done a s.
Definition bind {A B} (m : M A) (k : A -> M B) : M B :=
  fun s => match m s with
           | Done a s' => k a s'
           | Panic msg => Panic msg
           end.
Definition panic {A} (msg : string) : M A := fun _ => Panic msg.

Notation "x <- m ;; k" := (bind m (fun x => k))
  (at level 100, m at next level, right associativity).

Definition getMgr : M DeviceManagerRedis := fun s => Done (mgr s) s.
Definition putMgr (d : DeviceManagerRedis) : M unit :=
  fun s => Done tt (set_mgr d s).
Definition modMgr (f : DeviceManagerRedis -> DeviceManagerRedis) : M unit :=
  fun s => Done tt (set_mgr (f (mgr s)) s).

Definition nilDeref : string := "invalid memory address or nil pointer dereference".
Definition nilMapWrite : string := "assignment to entry in nil map".

(** ** Names of the hashes and streams *)

Definition onboardCertsHash : string := "ONBOARD_CERTS".
Definition onboardSerialsHash : string := "ONBOARD_SERIALS".
Definition deviceSerialsHash : string := "DEVICE_SERIALS".
Definition deviceOnboardCertsHash : string := "DEVICE_ONBOARD_CERTS".
Definition deviceCertsHash : string := "DEVICE_CERTS".
Definition deviceConfigsHash : string := "DEVICE_CONFIGS".
Definition deviceLogsStream : string := "LOGS_EVE_".
Definition deviceInfoSteram : string := "INFO_EVE_".
Definition deviceMetricsStream : string := "METRICS_EVE_".

(** ** The commands of the database, on its contents *)

Module Redis.

Definition HGet (h k : string) (r : gmap string RValue) : RedisErr + string :=
  match r !! h with
  | None => inl redis_Nil
  | Some (RStream _) => inl redis_WrongType
  | Some (RHash m) =>
      match m !! k with
      | None => inl redis_Nil
      | Some v => inr v
      end
  end.

(** A hash that does not exist reads as the empty hash. *)
Definition HGetAll (h : string) (r : gmap string RValue)
    : RedisErr + gmap string string :=
  match r !! h with
  | None => inr ∅
  | Some (RStream _) => inl redis_WrongType
  | Some (RHash m) => inr m
  end.

(** The boolean tells whether the field is new. *)
Definition HSet (h k v : string) (r : gmap string RValue)
    : (RedisErr + bool) * gmap string RValue :=
  match r !! h with
  | None => (inr true, <[h := RHash {[k := v]}]> r)
  | Some (RStream _) => (inl redis_WrongType, r)
  | Some (RHash m) =>
      (inr (bool_decide (m !! k = None)), <[h := RHash (<[k := v]> m)]> r)
  end.

(** The number of fields removed; a hash left empty ceases to exist. *)
Definition HDel (h k : string) (r : gmap string RValue)
    : (RedisErr + Z) * gmap string RValue :=
  match r !! h with
  | None => (inr 0%Z, r)
  | Some (RStream _) => (inl redis_WrongType, r)
  | Some (RHash m) =>
      match m !! k with
      | None => (inr 0%Z, r)
      | Some _ =>
          let m' := delete k m in
          (inr 1%Z,
           if bool_decide (m' = ∅) then delete h r else <[h := RHash m']> r)
      end
  end.

(** The number of keys removed. *)
Definition Del (k : string) (r : gmap string RValue)
    : (RedisErr + Z) * gmap string RValue :=
  match r !! k with
  | None => (inr 0%Z, r)
  | Some _ => (inr 1%Z, delete k r)
  end.

(** Append with an automatic identifier.  With an approximate bound
    [Some n], at most [cut] of the oldest entries beyond the bound are
    removed; [cut] is not chosen by the caller. *)
Definition XAdd (stream : string) (maxLenApprox : option Z) (cut : nat)
    (values : gmap string string) (r : gmap string RValue)
    : (RedisErr + unit) * gmap string RValue :=
  match r !! stream with
  | Some (RHash _) => (inl redis_WrongType, r)
  | other =>
      let es := match other with Some (RStream es) => es | _ => [] end in
      let es' := (es ++ [values])%list in
      let es'' :=
        match maxLenApprox with
        | None => es'
        | Some n => drop (Nat.min cut (length es' - Z.to_nat n)) es'
        end in
      (inr tt, <[stream := RStream es'']> r)
  end.

End Redis.

(** ** The manager's code *)

Section Manager.

Context `{X : Ext} (E : Env).

(** *** Calls that leave the program *)

(** A command that only reads.  A failure of the connection is decided
    by the environment. *)
Definition query {A} (f : gmap string RValue -> RedisErr + A) : M (RedisErr + A) :=
  fun s =>
    if fault E (tick s) then Done (inl redis_IO) (bump s)
    else Done (f (db s)) (bump s).

(** A command that may write. *)
Definition command {A}
    (f : gmap string RValue -> (RedisErr + A) * gmap string RValue)
    : M (RedisErr + A) :=
  fun s =>
    if fault E (tick s) then Done (inl redis_IO) (bump s)
    else let '(a, r) := f (db s) in Done a (bump (set_db r s)).

Definition HGet (h k : string) : M (RedisErr + string) :=
  query (Redis.HGet h k).
Definition HGetAll (h : string) : M (RedisErr + gmap string string) :=
  query (Redis.HGetAll h).
Definition HSet (h k v : string) : M (RedisErr + bool) :=
  command (Redis.HSet h k v).
Definition HDel (h k : string) : M (RedisErr + Z) :=
  command (Redis.HDel h k).
Definition Del (k : string) : M (RedisErr + Z) :=
  command (Redis.Del k).
Definition Save : M (RedisErr + unit) :=
  query (fun _ => inr tt).
Definition XAdd (stream : string) (maxLenApprox : option Z)
    (values : gmap string string) : M (RedisErr + unit) :=
  fun s => command (Redis.XAdd stream maxLenApprox (trim E (tick s)) values) s.

(** [time.Now()]. *)
Definition time_Now : M Z :=
  fun s => Done (clock E (tick s)) (bump s).

(** [uuid.NewV4()]. *)
Definition uuid_NewV4 : M (option UUID) :=
  fun s => Done (rand E (tick s)) (bump s).

(** The entries of a map in the order a [range] visits them. *)
Definition range {K V} `{Countable K} (m : gmap K V) : M (list (K * V)) :=
  fun s => Done (shuffle E (tick s) _ (map_to_list m)) (bump s).

(** *** Time *)

(** Times and durations count nanoseconds.  [Time.Sub] saturates at the
    ends of [int64]. *)
Definition maxDuration : Z := 2 ^ 63 - 1.
Definition minDuration : Z := - 2 ^ 63.
Definition time_Sub (t u : Z) : Z :=
  Z.max minDuration (Z.min maxDuration (t - u)).

(** The zero [time.Time], January 1 of year 1, from the Unix epoch. *)
Definition zeroTime : Z := (-62135596800) * 1000000000.

(** [now.Sub(d.lastUpdate).Seconds() < float64(d.cacheTimeout)]: the
    comparison is made on the exact values. *)
Definition withinTTL (now : Z) (d : DeviceManagerRedis) : bool :=
  (time_Sub now (lastUpdate d) <? cacheTimeout d * 1000000000)%Z.

(** *** Helpers of the package that live outside this file *)

(** Modelled from the spec: [createBaseConfig] is declared outside this
    file; it returns a base config document with the self-referential
    UUID field set. *)
Definition createBaseConfig (u : UUID) : EdgeDevConfig :=
  {| Id := Some {| Uuid := uuid_String u; Version := "" |};
     ConfigBody := "" |}.

(** Modelled from the spec: [getOnboardCertName] is declared outside
    this file; an onboarding certificate is persisted under its Common
    Name. *)
Definition getOnboardCertName (cn : string) : string := cn.

(** *** Private helpers *)

Definition mkStreamEntry (body : string) : gmap string string :=
  {[ "version" := "1"; "object" := body ]}.

Definition readCert (hash key : string) : M (Res Certificate) :=
  v <- HGet hash key ;;
  match v with
  | inl e =>
      ret (Err (Errorf "error reading certificate for %s from hash %s: %v"
                       [Some (redis_error e)]))
  | inr v =>
      match ax_ParseCert v with
      | None =>
          ret (Err (Errorf
            "error decoding onboard certificate for %s from hash %s: %v (%s)"
            [Some (lib_error "x509")]))
      | Some cert => ret (Ok cert)
      end
  end.

Definition writeCert (cert hash uuid : string) (force : bool)
    : M (option error) :=
  if bool_decide (hash = "") then
    ret (Some (Errorf "certPath must not be empty" []))
  else
    old <- HGet hash uuid ;;
    if match old with inr _ => negb force | inl _ => false end then
      ret (Some (Errorf "certificate for %s already exists in %s" []))
    else
      let certPem := ax_PemEncodeCert cert in
      r <- HSet hash uuid certPem ;;
      match r with
      | inl e =>
          ret (Some (Errorf "failed to write certificate for %s: %v"
                            [Some (redis_error e)]))
      | inr b =>
          if negb b && negb force then
            ret (Some (Errorf "failed to write certificate for %s: %v" [None]))
          else
            r <- Save ;;
            match r with
            | inl e =>
                ret (Some (Errorf "failed to write certificate for %s: %v"
                                  [Some (redis_error e)]))
            | inr _ => ret None
            end
      end.

(** [HSet] followed, when it succeeds, by [Save]: the remaining error. *)
Definition hsetSave (hash key v : string) : M (option RedisErr) :=
  r <- HSet hash key v ;;
  match r with
  | inl e => ret (Some e)
  | inr _ =>
      r <- Save ;;
      match r with
      | inl e => ret (Some e)
      | inr _ => ret None
      end
  end.

Definition writeProtobufToJSONMsgPack (u : UUID) (hash : string)
    (msg : EdgeDevConfig) : M (option error) :=
  match msgpack_MarshalConfig msg with
  | None =>
      ret (Some (Errorf "can't marshal proto message %v"
                        [Some (lib_error "msgpack")]))
  | Some s =>
      err <- hsetSave hash (uuid_String u) s ;;
      match err with
      | Some e =>
          ret (Some (Errorf "can't save proto message for %s in %s: %v"
                            [Some (redis_error e)]))
      | None => ret None
      end
  end.

Definition writeProtobufToStream (stream : string) (msg : Message)
    : M (option error) :=
  match jsonpb_Marshal msg with
  | None =>
      ret (Some (Errorf "failed to marshal protobuf message %v: %v"
                        [Some (lib_error "jsonpb")]))
  | Some buf =>
      r <- XAdd stream None (mkStreamEntry buf) ;;
      match r with
      | inl _ =>
          ret (Some (Errorf
            "failed to put protobuf message %v into a stream %s" []))
      | inr _ => ret None
      end
  end.

Definition dropError (format : string) (err : option RedisErr)
    (result : option error) : error :=
  Errorf format [redis_error <$> err; result].

Fixpoint transactionDrop_from (keys : list (list string))
    (result : option error) : M (option error) :=
  match keys with
  | [] => ret result
  | k :: keys' =>
      match k with
      | [k0] =>
          r <- Del k0 ;;
          let result' :=
            match r with
            | inr 1%Z => result
            | inr _ =>
                Some (dropError
                  "couldn't drop %s with error %d/%v (previous error in transaction %v)"
                  None result)
            | inl e =>
                Some (dropError
                  "couldn't drop %s with error %d/%v (previous error in transaction %v)"
                  (Some e) result)
            end in
          transactionDrop_from keys' result'
      | [k0; k1] =>
          r <- HDel k0 k1 ;;
          let result' :=
            match r with
            | inr 1%Z => result
            | inr _ =>
                Some (dropError
                  "couldn't drop %s[%s] with error %d/%v (previous error in transaction %v)"
                  None result)
            | inl e =>
                Some (dropError
                  "couldn't drop %s[%s] with error %d/%v (previous error in transaction %v)"
                  (Some e) result)
            end in
          transactionDrop_from keys' result'
      | _ =>
          panic "transactionDrop should never be called with keys that are less than 1 or more than 2 elements"
      end
  end.

Definition transactionDrop (keys : list (list string)) : M (option error) :=
  transactionDrop_from keys None.

(** [checkValidOnboardSerial] reads the cache only. *)
Definition checkValidOnboardSerial (d : DeviceManagerRedis)
    (cert : Certificate) (ser : string) : option error :=
  let certStr := Raw cert in
  match rd (onboardCerts d) !! certStr with
  | Some c =>
      if bool_decide (is_Some (c !! ser)) then None
      else if bool_decide (is_Some (c !! "*")) then None
      else Some (InvalidSerialError ("unknown serial: " +:+ ser))
  | None => Some (InvalidCertError "unknown onboarding certificate")
  end.

(** The loop of [getOnboardSerialDevice] over the entries in the order
    of the [range]. *)
Fixpoint getOnboardSerialDevice_from (certStr ser : string)
    (l : list (UUID * deviceStorage)) : M (option UUID) :=
  match l with
  | [] => ret None
  | (uid, dev) :: l' =>
      match onboard dev with
      | None => panic nilDeref
      | Some oc =>
          let dCertStr := Raw oc in
          if bool_decide (dCertStr = certStr) && bool_decide (ser = serial dev)
          then ret (Some uid)
          else getOnboardSerialDevice_from certStr ser l'
      end
  end.

Definition getOnboardSerialDevice (cert : Certificate) (ser : string)
    : M (option UUID) :=
  let certStr := Raw cert in
  d <- getMgr ;;
  l <- range (rd (devices d)) ;;
  getOnboardSerialDevice_from certStr ser l.

(** *** The refresh of the cache *)

Definition zeroDevice : deviceStorage := {| onboard := None; serial := "" |}.

(** First loop of [refreshCache]: the onboarding certificates and, for
    each, its serials. *)
Fixpoint refreshCache_onboard (l : list (string * string))
    (onboardCerts : gmap string (gmap string bool))
    : M (Res (gmap string (gmap string bool))) :=
  match l with
  | [] => ret (Ok onboardCerts)
  | (u, c) :: l' =>
      match pem_Decode c with
      | None => panic nilDeref
      | Some certPem =>
          match x509_ParseCertificate (Bytes certPem) with
          | None =>
              ret (Err (Errorf
                "unable to convert data from %s to onboard certificate: %v"
                [Some (lib_error "x509")]))
          | Some cert =>
              let certStr := Raw cert in
              let onboardCerts := <[certStr := ∅]> onboardCerts in
              v <- HGet onboardSerialsHash u ;;
              match v with
              | inl e =>
                  ret (Err (Errorf "unabled to get a serial for %s: %v"
                                   [Some (redis_error e)]))
              | inr v =>
                  match msgpack_UnmarshalSerials v with
                  | None =>
                      ret (Err (Errorf
                        "unable to unmarshal onboard serials %s: %v"
                        [Some (lib_error "msgpack")]))
                  | Some serials =>
                      let onboardCerts :=
                        foldl (fun acc ser =>
                                 alter (fun c => <[ser := true]> c) certStr acc)
                              onboardCerts serials in
                      refreshCache_onboard l' onboardCerts
                  end
              end
          end
      end
  end.

(** Second loop: the device certificates. *)
Fixpoint refreshCache_devices (l : list (string * string))
    (deviceCerts : gmap string UUID) (devices : gmap UUID deviceStorage)
    : M (Res (gmap string UUID * gmap UUID deviceStorage)) :=
  match l with
  | [] => ret (Ok (deviceCerts, devices))
  | (k, c) :: l' =>
      match uuid_FromString k with
      | None =>
          ret (Err (Errorf
            "unable to convert device uuid from Redis hash name %s: %v"
            [Some (lib_error "uuid")]))
      | Some u =>
          match pem_Decode c with
          | None => panic nilDeref
          | Some certPem =>
              match x509_ParseCertificate (Bytes certPem) with
              | None =>
                  ret (Err (Errorf
                    "unable to convert data from file %s to device certificate: %v"
                    [Some (lib_error "x509")]))
              | Some cert =>
                  let certStr := Raw cert in
                  refreshCache_devices l' (<[certStr := u]> deviceCerts)
                                       (<[u := zeroDevice]> devices)
              end
          end
      end
  end.

(** The entry for [u], created empty when it is not present. *)
Definition devItemOf (u : UUID) (devices : gmap UUID deviceStorage)
    : deviceStorage :=
  default zeroDevice (devices !! u).

(** Third loop: the onboarding certificate of each device. *)
Fixpoint refreshCache_deviceOnboard (l : list (string * string))
    (devices : gmap UUID deviceStorage) : M (Res (gmap UUID deviceStorage)) :=
  match l with
  | [] => ret (Ok devices)
  | (k, b) :: l' =>
      match uuid_FromString k with
      | None =>
          ret (Err (Errorf
            "unable to convert device uuid from Redis hash name %s: %v"
            [Some (lib_error "uuid")]))
      | Some u =>
          match pem_Decode b with
          | None => panic nilDeref
          | Some certPem =>
              match x509_ParseCertificate (Bytes certPem) with
              | None =>
                  ret (Err (Errorf
                    "unable to convert data from file %s to device onboard certificate: %v"
                    [Some (lib_error "x509")]))
              | Some cert =>
                  let devItem := devItemOf u devices in
                  refreshCache_deviceOnboard l'
                    (<[u := {| onboard := Some cert;
                               serial := serial devItem |}]> devices)
              end
          end
      end
  end.

(** Fourth loop: the serial of each device. *)
Fixpoint refreshCache_deviceSerials (l : list (string * string))
    (devices : gmap UUID deviceStorage) : M (Res (gmap UUID deviceStorage)) :=
  match l with
  | [] => ret (Ok devices)
  | (k, s) :: l' =>
      match uuid_FromString k with
      | None =>
          ret (Err (Errorf
            "unable to convert device uuid from Redis hash name %s: %v"
            [Some (lib_error "uuid")]))
      | Some u =>
          let devItem := devItemOf u devices in
          refreshCache_deviceSerials l'
            (<[u := {| onboard := onboard devItem; serial := s |}]> devices)
      end
  end.

Definition refreshCache : M (option error) :=
  now <- time_Now ;;
  d <- getMgr ;;
  if withinTTL now d then ret None
  else
    ocerts <- HGetAll onboardCertsHash ;;
    match ocerts with
    | inl e =>
        ret (Some (Errorf
          "failed to retrieve onboarding certificated from %s %v"
          [Some (redis_error e)]))
    | inr ocerts =>
        l <- range ocerts ;;
        r <- refreshCache_onboard l ∅ ;;
        match r with
        | Err e => ret (Some e)
        | Ok onboardCerts =>
            _ <- modMgr (set_onboardCerts (Some onboardCerts)) ;;
            dcerts <- HGetAll deviceCertsHash ;;
            match dcerts with
            | inl e =>
                ret (Some (Errorf
                  "failed to retrieve device certificates from %s %v"
                  [Some (redis_error e)]))
            | inr dcerts =>
                l <- range dcerts ;;
                r <- refreshCache_devices l ∅ ∅ ;;
                match r with
                | Err e => ret (Some e)
                | Ok (deviceCerts, devices) =>
                    _ <- modMgr (set_deviceCerts (Some deviceCerts)) ;;
                    docerts <- HGetAll deviceOnboardCertsHash ;;
                    match docerts with
                    | inl e =>
                        ret (Some (Errorf
                          "failed to retrieve device certificates from %s %v"
                          [Some (redis_error e)]))
                    | inr docerts =>
                        l <- range docerts ;;
                        r <- refreshCache_deviceOnboard l devices ;;
                        match r with
                        | Err e => ret (Some e)
                        | Ok devices =>
                            dserials <- HGetAll deviceSerialsHash ;;
                            match dserials with
                            | inl e =>
                                ret (Some (Errorf
                                  "failed to retrieve device certificates from %s %v"
                                  [Some (redis_error e)]))
                            | inr dserials =>
                                l <- range dserials ;;
                                r <- refreshCache_deviceSerials l devices ;;
                                match r with
                                | Err e => ret (Some e)
                                | Ok devices =>
                                    _ <- modMgr (set_devices (Some devices)) ;;
                                    _ <- modMgr (set_lastUpdate now) ;;
                                    ret None
                                end
                            end
                        end
                    end
                end
            end
        end
    end.

(** *** Onboarding *)

Definition refreshFailed (e : error) : error :=
  Errorf "unable to refresh certs from Redis: %v" [Some e].

Definition OnboardCheck (cert : option Certificate) (ser : string)
    : M (option error) :=
  match cert with
  | None => ret (Some (Errorf "invalid nil certificate" []))
  | Some cert =>
      err <- refreshCache ;;
      match err with
      | Some e => ret (Some (refreshFailed e))
      | None =>
          d <- getMgr ;;
          match checkValidOnboardSerial d cert ser with
          | Some e => ret (Some e)
          | None =>
              u <- getOnboardSerialDevice cert ser ;;
              match u with
              | Some _ =>
                  ret (Some (UsedSerialError
                    ("serial already used for onboarding certificate: " +:+ ser)))
              | None => ret None
              end
          end
      end
  end.

Definition OnboardGet (cn : string)
    : M (option Certificate * option (list string) * option error) :=
  if bool_decide (cn = "") then
    ret (None, None, Some (Errorf "empty cn" []))
  else
    cert <- readCert onboardCertsHash cn ;;
    match cert with
    | Err e => ret (None, None, Some e)
    | Ok cert =>
        s <- HGet onboardSerialsHash cn ;;
        match s with
        | inl e =>
            ret (None, None,
                 Some (Errorf "error reading onboard serials for %s: %v"
                              [Some (redis_error e)]))
        | inr s =>
            match msgpack_UnmarshalSerials s with
            | None =>
                ret (None, None,
                     Some (Errorf "error decoding onboard serials for %s %v (%s)"
                                  [Some (lib_error "msgpack")]))
            | Some serials => ret (Some cert, Some serials, None)
            end
        end
    end.

Fixpoint OnboardList_from (l : list (string * gmap string bool))
    (cns : list string) : Res (list string) :=
  match l with
  | [] => Ok cns
  | (certStr, _) :: l' =>
      match x509_ParseCertificate certStr with
      | None =>
          Err (Errorf "unable to parse certificate: %v"
                      [Some (lib_error "x509")])
      | Some cert => OnboardList_from l' (cns ++ [CommonName cert])%list
      end
  end.

Definition OnboardList : M (Res (list string)) :=
  err <- refreshCache ;;
  match err with
  | Some e => ret (Err (refreshFailed e))
  | None =>
      d <- getMgr ;;
      l <- range (rd (onboardCerts d)) ;;
      ret (OnboardList_from l [])
  end.

Definition OnboardRemove (cn : string) : M (option error) :=
  result <- transactionDrop [[onboardSerialsHash; cn]; [onboardCertsHash; cn]] ;;
  match result with
  | None => refreshCache
  | Some e => ret (Some e)
  end.

Definition OnboardClear : M (option error) :=
  err <- transactionDrop [[onboardCertsHash]; [onboardSerialsHash]] ;;
  match err with
  | Some e =>
      ret (Some (Errorf
        "unable to remove the onboarding certificates/serials: %v" [Some e]))
  | None =>
      _ <- modMgr (set_onboardCerts (Some ∅)) ;;
      ret None
  end.

Definition OnboardRegister (cert : option Certificate) (serials : list string)
    : M (option error) :=
  match cert with
  | None => ret (Some (Errorf "empty nil certificate" []))
  | Some cert =>
      let certStr := Raw cert in
      let cn := getOnboardCertName (CommonName cert) in
      err <- writeCert (Raw cert) onboardCertsHash cn true ;;
      match err with
      | Some e => ret (Some e)
      | None =>
          match msgpack_MarshalSerials serials with
          | None =>
              ret (Some (Errorf "failed to serialize serials %v: %v"
                                [Some (lib_error "msgpack")]))
          | Some v =>
              err <- hsetSave onboardSerialsHash cn v ;;
              match err with
              | Some e =>
                  ret (Some (Errorf "failed to save serials %v: %v"
                                    [Some (redis_error e)]))
              | None =>
                  let serialList :=
                    foldl (fun acc s => <[s := true]> acc) ∅ serials in
                  _ <- modMgr (fun d =>
                         set_onboardCerts
                           (Some (<[certStr := serialList]> (rd (onboardCerts d))))
                           d) ;;
                  ret None
              end
          end
      end
  end.

(** *** Devices *)

Definition DeviceCheckCert (cert : option Certificate)
    : M (Res (option UUID)) :=
  match cert with
  | None => ret (Err (Errorf "invalid nil certificate" []))
  | Some cert =>
      err <- refreshCache ;;
      match err with
      | Some e => ret (Err (refreshFailed e))
      | None =>
          d <- getMgr ;;
          let certStr := Raw cert in
          ret (Ok (rd (deviceCerts d) !! certStr))
      end
  end.

Definition DeviceRemove (u : option UUID) : M (option error) :=
  match u with
  | None => panic nilDeref
  | Some u =>
      let k := uuid_String u in
      err <- transactionDrop
               [[deviceCertsHash; k];
                [deviceConfigsHash; k];
                [deviceOnboardCertsHash; k];
                [deviceSerialsHash; k];
                [deviceInfoSteram +:+ k];
                [deviceLogsStream +:+ k];
                [deviceMetricsStream +:+ k]] ;;
      match err with
      | Some e => ret (Some (Errorf "unable to remove the device %s %v" [Some e]))
      | None =>
          err <- refreshCache ;;
          match err with
          | Some e =>
              ret (Some (Errorf "unable to refresh device cache: %v" [Some e]))
          | None => ret None
          end
      end
  end.

Definition DeviceClear : M (option error) :=
  d <- getMgr ;;
  l <- range (rd (devices d)) ;;
  let streams :=
    ([[deviceConfigsHash]; [deviceSerialsHash]; [deviceCertsHash];
      [deviceOnboardCertsHash]]
     ++ concat (map (fun '(u, _) =>
                       [[deviceMetricsStream +:+ uuid_String u];
                        [deviceLogsStream +:+ uuid_String u];
                        [deviceInfoSteram +:+ uuid_String u]]) l))%list in
  err <- transactionDrop streams ;;
  match err with
  | Some e => ret (Some (Errorf "unable to remove all devices %v" [Some e]))
  | None =>
      _ <- modMgr (set_deviceCerts (Some ∅)) ;;
      _ <- modMgr (set_devices (Some ∅)) ;;
      ret None
  end.

Definition DeviceGet (u : option UUID)
    : M (option Certificate * option Certificate * string * option error) :=
  match u with
  | None => ret (None, None, "", Some (Errorf "empty UUID" []))
  | Some u =>
      cert <- readCert deviceCertsHash (uuid_String u) ;;
      match cert with
      | Err e => ret (None, None, "", Some e)
      | Ok cert =>
          onb <- readCert deviceOnboardCertsHash (uuid_String u) ;;
          match onb with
          | Err e => ret (None, None, "", Some e)
          | Ok onb =>
              ser <- HGet deviceSerialsHash (uuid_String u) ;;
              (* somehow device serials are best effort *)
              let ser := match ser with inr v => v | inl _ => "" end in
              ret (Some cert, Some onb, ser, None)
          end
      end
  end.

Definition DeviceList : M (Res (list UUID)) :=
  err <- refreshCache ;;
  match err with
  | Some e => ret (Err (refreshFailed e))
  | None =>
      d <- getMgr ;;
      l <- range (rd (devices d)) ;;
      ret (Ok (map fst l))
  end.

(** The loop of [DeviceRegister] that creates the streams of a device. *)
Fixpoint DeviceRegister_streams (ps : list string) (unew : UUID)
    : M (option error) :=
  match ps with
  | [] => ret None
  | p :: ps' =>
      let stream := p +:+ uuid_String unew in
      r <- XAdd stream (Some 10000%Z) (mkStreamEntry "") ;;
      match r with
      | inl e =>
          ret (Some (Errorf "error creating stream %s: %v"
                            [Some (redis_error e)]))
      | inr _ => DeviceRegister_streams ps' unew
      end
  end.

(** The write-through at the end of [DeviceRegister]; an assignment to
    an entry of a nil map panics. *)
Definition DeviceRegister_cache (cert : Certificate)
    (onb : option Certificate) (ser : string) (unew : UUID) : M unit :=
  d <- getMgr ;;
  match deviceCerts d with
  | None => panic nilMapWrite
  | Some dc =>
      _ <- modMgr (set_deviceCerts (Some (<[Raw cert := unew]> dc))) ;;
      d <- getMgr ;;
      match devices d with
      | None => panic nilMapWrite
      | Some ds =>
          modMgr (set_devices
                    (Some (<[unew := {| onboard := onb; serial := ser |}]> ds)))
      end
  end.

Definition DeviceRegister (cert onb : option Certificate) (ser : string)
    : M (Res UUID) :=
  err <- refreshCache ;;
  match err with
  | Some e => ret (Err (refreshFailed e))
  | None =>
      u <- DeviceCheckCert cert ;;
      match u, cert with
      | Err e, _ => ret (Err e)
      | Ok (Some _), _ => ret (Err (Errorf "device already registered" []))
      | Ok None, None => panic nilDeref
      | Ok None, Some cert =>
          unew <- uuid_NewV4 ;;
          match unew with
          | None =>
              ret (Err (Errorf "error generating uuid for device: %v"
                               [Some (lib_error "uuid")]))
          | Some unew =>
              err <- writeCert (Raw cert) deviceCertsHash (uuid_String unew) true ;;
              match err with
              | Some e => ret (Err e)
              | None =>
                  err <- match onb with
                         | Some o =>
                             writeCert (Raw o) deviceOnboardCertsHash
                                       (uuid_String unew) true
                         | None => ret None
                         end ;;
                  match err with
                  | Some e => ret (Err e)
                  | None =>
                      err <- (if bool_decide (ser = "") then ret None
                              else hsetSave deviceSerialsHash
                                            (uuid_String unew) ser) ;;
                      match err with
                      | Some e =>
                          ret (Err (Errorf
                            "error saving device serial for %v: %v"
                            [Some (redis_error e)]))
                      | None =>
                          err <- writeProtobufToJSONMsgPack unew
                                   deviceConfigsHash (createBaseConfig unew) ;;
                          match err with
                          | Some e =>
                              ret (Err (Errorf
                                "error saving device config for %v: %v"
                                [Some e]))
                          | None =>
                              err <- DeviceRegister_streams
                                       [deviceInfoSteram; deviceMetricsStream;
                                        deviceLogsStream] unew ;;
                              match err with
                              | Some e => ret (Err e)
                              | None =>
                                  _ <- DeviceRegister_cache cert onb ser unew ;;
                                  ret (Ok unew)
                              end
                          end
                      end
                  end
              end
          end
      end
  end.

(** *** Telemetry *)

Definition invalidDevice : error :=
  Errorf "unable to retrieve valid device UUID from message as %s: %v"
         [Some (lib_error "uuid")].

Definition streamWriteFailed (e : error) : error :=
  Errorf "failed to write info to a stream: %v" [Some e].

Definition WriteInfo (m : option ZInfoMsg) : M (option error) :=
  match m with
  | None => ret (Some (Errorf "invalid nil message" []))
  | Some m =>
      match uuid_FromString (InfoDevId m) with
      | None => ret (Some invalidDevice)
      | Some u =>
          err <- writeProtobufToStream (deviceInfoSteram +:+ uuid_String u)
                                       (MsgInfo m) ;;
          match err with
          | Some e => ret (Some (streamWriteFailed e))
          | None => ret None
          end
      end
  end.

Definition WriteLogs (m : option LogBundle) : M (option error) :=
  match m with
  | None => ret (Some (Errorf "invalid nil message" []))
  | Some m =>
      match uuid_FromString (LogDevID m) with
      | None => ret (Some invalidDevice)
      | Some u =>
          err <- writeProtobufToStream (deviceLogsStream +:+ uuid_String u)
                                       (MsgLogs m) ;;
          match err with
          | Some e => ret (Some (streamWriteFailed e))
          | None => ret None
          end
      end
  end.

Definition WriteMetrics (m : option ZMetricMsg) : M (option error) :=
  match m with
  | None => ret (Some (Errorf "invalid nil message" []))
  | Some m =>
      match uuid_FromString (MetricDevID m) with
      | None => ret (Some invalidDevice)
      | Some u =>
          err <- writeProtobufToStream (deviceMetricsStream +:+ uuid_String u)
                                       (MsgMetrics m) ;;
          match err with
          | Some e => ret (Some (streamWriteFailed e))
          | None => ret None
          end
      end
  end.

(** *** Configuration *)


Definition SetConfig (u : UUID) (m : option EdgeDevConfig) : M (option error) :=
  match m with
  | None => ret (Some (Errorf "empty configuration" []))
  | Some m =>
      if match Id m with
         | None => true
         | Some id => negb (bool_decide (Uuid id = uuid_String u))
         end
      then ret (Some (Errorf "mismatched UUID" []))
      else
        err <- refreshCache ;;
        match err with
        | Some e => ret (Some (refreshFailed e))
        | None =>
            d <- getMgr ;;
            match rd (devices d) !! u with
            | None => ret (Some (Errorf "unregistered device UUID %s" []))
            | Some _ =>
                match msgpack_MarshalConfig m with
                | None =>
                    ret (Some (Errorf "failed to marshall config %v"
                                      [Some (lib_error "msgpack")]))
                | Some v =>
                    err <- hsetSave deviceConfigsHash (uuid_String u) v ;;
                    match err with
                    | Some e =>
                        ret (Some (Errorf "failed to save config for %s: %v"
                                          [Some (redis_error e)]))
                    | None => ret None
                    end
                end
            end
        end
  end.

(** *** Readers *)

(** Modelled from the spec: the type [RedisStreamReader] and its [Read]
    method are declared outside this file.  A reader is a sequential,
    forward-only cursor over the entries of its stream from the start;
    each entry's payload (the [object] field) is exposed as a
    line-delimited byte sequence. *)
Record RedisStreamReader := mkRedisStreamReader {
  Stream : string;
  LineFeed : bool
}.

Definition GetLogsReader (u : UUID) : M (Res RedisStreamReader) :=
  ret (Ok {| Stream := deviceLogsStream +:+ uuid_String u; LineFeed := true |}).

Definition GetInfoReader (u : UUID) : M (Res RedisStreamReader) :=
  ret (Ok {| Stream := deviceInfoSteram +:+ uuid_String u; LineFeed := true |}).

(** Modelled from the spec: what a [RedisStreamReader] yields when read
    to the end over the current contents of the database, one line per
    entry. *)
Definition readerLines (dr : RedisStreamReader) (r : gmap string RValue)
    : list string :=
  match r !! Stream dr with
  | Some (RStream es) =>
      map (fun e => default "" (e !! "object")
                    +:+ (if LineFeed dr then String "010"%char "" else ""))
          es
  | _ => []
  end.

End Manager.

(** ** A concrete environment and concrete libraries

    Used to run the embedding on examples.  The codecs are small
    stand-ins with the shape of the real ones: a UUID prints in the
    canonical 8-4-4-4-12 hexadecimal form and parses from it in either
    case of the letters; a PEM block is its payload between the two
    armour lines; a DER certificate is a tagged string that carries its
    Common Name. *)

Module Sample.

Definition hexDigit (n : N) : ascii :=
  match n with
  | 0 => "0" | 1 => "1" | 2 => "2" | 3 => "3" | 4 => "4" | 5 => "5"
  | 6 => "6" | 7 => "7" | 8 => "8" | 9 => "9" | 10 => "a" | 11 => "b"
  | 12 => "c" | 13 => "d" | 14 => "e" | _ => "f"
  end%N%char.

Definition hexValue (c : ascii) : option N :=
  let n := N_of_ascii c in
  if (48 <=? n)%N && (n <=? 57)%N then Some (n - 48)%N
  else if (97 <=? n)%N && (n <=? 102)%N then Some (n - 87)%N
  else if (65 <=? n)%N && (n <=? 70)%N then Some (n - 55)%N
  else None.

(** The last [digits] hexadecimal digits of [n], in front of [acc]. *)
Fixpoint hex (digits : nat) (n : N) (acc : string) : string :=
  match digits with
  | O => acc
  | S d => hex d (n / 16)%N (String (hexDigit (n mod 16)%N) acc)
  end.

Fixpoint unhex (s : string) (acc : N) : option N :=
  match s with
  | EmptyString => Some acc
  | String c s' =>
      match hexValue c with
      | Some v => unhex s' (acc * 16 + v)%N
      | None => None
      end
  end.

Definition uuid_String (u : UUID) : string :=
  let h := hex 32 (uuid_val u) "" in
  substring 0 8 h +:+ "-" +:+ substring 8 4 h +:+ "-" +:+ substring 12 4 h
    +:+ "-" +:+ substring 16 4 h +:+ "-" +:+ substring 20 12 h.

Definition uuid_FromString (s : string) : option UUID :=
  if bool_decide (String.length s = 36)
     && bool_decide (substring 8 1 s = "-")
     && bool_decide (substring 13 1 s = "-")
     && bool_decide (substring 18 1 s = "-")
     && bool_decide (substring 23 1 s = "-")
  then
    mkUUID <$> unhex (substring 0 8 s +:+ substring 9 4 s +:+ substring 14 4 s
                      +:+ substring 19 4 s +:+ substring 24 12 s) 0%N
  else None.

Definition pemBegin : string := "-----BEGIN CERTIFICATE-----".
Definition pemEnd : string := "-----END CERTIFICATE-----".

Definition pem_Encode (raw : string) : string := pemBegin +:+ raw +:+ pemEnd.

Definition pem_Decode (s : string) : option pemBlock :=
  let n := String.length s in
  let b := String.length pemBegin in
  let e := String.length pemEnd in
  if bool_decide (b + e <= n)
     && bool_decide (substring 0 b s = pemBegin)
     && bool_decide (substring (n - e) e s = pemEnd)
  then Some {| Bytes := substring b (n - b - e) s |}
  else None.

Definition x509_ParseCertificate (raw : string) : option Certificate :=
  if bool_decide (substring 0 4 raw = "DER:")
  then Some {| Raw := raw;
               CommonName := substring 4 (String.length raw - 4) raw |}
  else None.

(** The certificate with a given Common Name. *)
Definition certOf (cn : string) : Certificate :=
  {| Raw := "DER:" +:+ cn; CommonName := cn |}.

Definition ax_ParseCert (s : string) : option Certificate :=
  match pem_Decode s with
  | None => None
  | Some b => x509_ParseCertificate (Bytes b)
  end.

(** Splits at every occurrence of [sep]. *)
Fixpoint split (sep : ascii) (s : string) (cur : string) : list string :=
  match s with
  | EmptyString => [cur]
  | String c s' =>
      if bool_decide (c = sep) then cur :: split sep s' ""
      else split sep s' (cur +:+ String c "")
  end.

Definition join (sep : string) (l : list string) : string :=
  match l with
  | [] => ""
  | x :: l' => foldl (fun acc y => acc +:+ sep +:+ y) x l'
  end.

Definition msgpack_MarshalSerials (l : list string) : option string :=
  Some ("[" +:+ join "," l +:+ "]").

Definition msgpack_UnmarshalSerials (s : string) : option (list string) :=
  let n := String.length s in
  if bool_decide (2 <= n) && bool_decide (substring 0 1 s = "[")
     && bool_decide (substring (n - 1) 1 s = "]")
  then
    if bool_decide (n = 2) then Some []
    else Some (split ","%char (substring 1 (n - 2) s) "")
  else None.

Definition msgpack_MarshalConfig (c : EdgeDevConfig) : option string :=
  Some (match Id c with
        | None => "-;" +:+ ConfigBody c
        | Some id => "+;" +:+ Uuid id +:+ ";" +:+ Version id +:+ ";"
                     +:+ ConfigBody c
        end).

Definition msgpack_UnmarshalConfig (s : string)
    : option (option EdgeDevConfig) :=
  if bool_decide (s = "nil") then Some None
  else
    match split ";"%char s "" with
    | ["-"; body] => Some (Some {| Id := None; ConfigBody := body |})
    | ["+"; u; v; body] =>
        Some (Some {| Id := Some {| Uuid := u; Version := v |};
                      ConfigBody := body |})
    | _ => None
    end.

Definition jsonpb_Marshal (m : Message) : option string :=
  Some (match m with
        | MsgLogs m => "{devID:" +:+ LogDevID m +:+ "," +:+ LogBody m +:+ "}"
        | MsgInfo m => "{devId:" +:+ InfoDevId m +:+ "," +:+ InfoBody m +:+ "}"
        | MsgMetrics m =>
            "{devID:" +:+ MetricDevID m +:+ "," +:+ MetricBody m +:+ "}"
        | MsgConfig m => "{config:" +:+ ConfigBody m +:+ "}"
        end).

#[export] Instance libs : Ext :=
  mkExt uuid_String uuid_FromString pem_Decode x509_ParseCertificate
        msgpack_MarshalSerials msgpack_UnmarshalSerials
        msgpack_MarshalConfig msgpack_UnmarshalConfig jsonpb_Marshal
        ax_ParseCert pem_Encode.

(** A quiet environment: the clock reads [t0] plus one second per
    interaction, no call fails, a [range] keeps the order of the
    listing, trims remove nothing, and every new UUID is [u]. *)
Definition quiet (t0 : Z) (u : UUID) : Env :=
  {| clock := fun n => (t0 + Z.of_nat n * 1000000000)%Z;
     fault := fun _ => false;
     shuffle := fun _ _ l => l;
     rand := fun _ => Some u;
     trim := fun _ => 0 |}.

(** The same with a [range] that walks the listing backwards. *)
Definition backwards (t0 : Z) (u : UUID) : Env :=
  {| clock := fun n => (t0 + Z.of_nat n * 1000000000)%Z;
     fault := fun _ => false;
     shuffle := fun _ _ l => reverse l;
     rand := fun _ => Some u;
     trim := fun _ => 0 |}.

Definition emptyMgr (timeout : Z) : DeviceManagerRedis :=
  {| cacheTimeout := timeout; lastUpdate := zeroTime;
     onboardCerts := None; deviceCerts := None; devices := None |}.

Definition start (timeout : Z) : State :=
  {| mgr := emptyMgr timeout; db := ∅; tick := 0 |}.

(** *** Runs used as examples *)

Definition uA : UUID := mkUUID 0x0123456789abcdef0123456789abcdef.

Definition certC : Certificate := certOf "alpha".
Definition certB : Certificate := certOf "beta".
Definition certX : Certificate := certOf "devx".

Definition E0 : Env := quiet 0 uA.

(** The state a run ends in. *)
Definition stateOf {A} (o : Outcome A) : State :=
  match o with
  | Done _ s => s
  | Panic _ => start 0
  end.

(** An operator has registered the onboarding certificate [certC] with
    the serials S1 and S2. *)
Definition onboarded (timeout : Z) : State :=
  stateOf (OnboardRegister E0 (Some certC) ["S1"; "S2"] (start timeout)).

(** Then the device [certX] was registered without an onboarding
    certificate and without a serial. *)
Definition registeredBare (timeout : Z) : State :=
  stateOf (DeviceRegister E0 (Some certX) None "" (onboarded timeout)).

(** Or the device [certX] was registered with [certC] and the serial S1. *)
Definition registeredFull (timeout : Z) : State :=
  stateOf (DeviceRegister E0 (Some certX) (Some certC) "S1" (onboarded timeout)).

(** A database in which the record of an onboarding certificate is not
    PEM at all, under a manager that has never refreshed. *)
Definition garbageCert : State :=
  {| mgr := emptyMgr 0;
     db := {[ onboardCertsHash := RHash {[ "alpha" := "garbage" ]} ]};
     tick := 0 |}.

(** A manager whose cache knows [certC], over a database in which the name
    of a device certificate is not a UUID. *)
Definition brokenName : State :=
  {| mgr := {| cacheTimeout := 0; lastUpdate := zeroTime;
               onboardCerts := Some {[ Raw certC := {[ "S1" := true ]} ]};
               deviceCerts := Some ∅; devices := Some ∅ |};
     db := {[ deviceCertsHash :=
                RHash {[ "not-a-uuid" := pem_Encode (Raw certX) ]} ]};
     tick := 0 |}.

End Sample.

(** * Properties *)

Section Proofs.

Context `{X : Ext} (E : Env).

(** ** Stepping through the monad *)

Lemma bind_done {A B} (m : M A) (k : A -> M B) s b s' :
  bind m k s = Done b s' ->
  exists a s1, m s = Done a s1 /\ k a s1 = Done b s'.
Proof.
  unfold bind. destruct (m s) as [a s1|msg]; [eauto | discriminate].
Qed.

Lemma bind_step {A B} (m : M A) (k : A -> M B) s a s1 :
  m s = Done a s1 -> bind m k s = k a s1.
Proof. unfold bind. intros ->. reflexivity. Qed.

Lemma bind_panic {A B} (m : M A) (k : A -> M B) s msg :
  m s = Panic msg -> bind m k s = Panic msg.
Proof. unfold bind. intros ->. reflexivity. Qed.

(** The part of the state a call cannot touch unless it says so. *)
Definition sameStore (s s' : State) : Prop :=
  mgr s' = mgr s /\ db s' = db s.

Lemma sameStore_refl s : sameStore s s.
Proof. split; reflexivity. Qed.

Lemma sameStore_trans s1 s2 s3 :
  sameStore s1 s2 -> sameStore s2 s3 -> sameStore s1 s3.
Proof. intros [? ?] [? ?]. split; congruence. Qed.

Lemma sameStore_bump s : sameStore s (bump s).
Proof. split; reflexivity. Qed.

Lemma query_done {A} (f : gmap string RValue -> RedisErr + A) s r s' :
  query E f s = Done r s' ->
  s' = bump s /\
  (fault E (tick s) = true /\ r = inl redis_IO \/
   fault E (tick s) = false /\ r = f (db s)).
Proof.
  unfold query. destruct (fault E (tick s)); intros [= <- <-]; auto.
Qed.

Lemma query_total {A} (f : gmap string RValue -> RedisErr + A) s :
  exists r, query E f s = Done r (bump s).
Proof. unfold query. destruct (fault E (tick s)); eauto. Qed.

Lemma query_ok {A} (f : gmap string RValue -> RedisErr + A) s :
  fault E (tick s) = false -> query E f s = Done (f (db s)) (bump s).
Proof. unfold query. intros ->. reflexivity. Qed.

Lemma command_ok {A}
    (f : gmap string RValue -> (RedisErr + A) * gmap string RValue) s :
  fault E (tick s) = false ->
  command E f s = Done (f (db s)).1 (bump (set_db (f (db s)).2 s)).
Proof. unfold command. intros ->. destruct (f (db s)). reflexivity. Qed.

Lemma command_done {A}
    (f : gmap string RValue -> (RedisErr + A) * gmap string RValue) s r s' :
  command E f s = Done r s' ->
  mgr s' = mgr s /\ tick s' = S (tick s) /\
  (fault E (tick s) = true /\ r = inl redis_IO /\ db s' = db s \/
   fault E (tick s) = false /\ r = (f (db s)).1 /\ db s' = (f (db s)).2).
Proof.
  unfold command. destruct (fault E (tick s)).
  - intros [= <- <-]. simpl. intuition.
  - destruct (f (db s)) as [a r']. intros [= <- <-]. simpl. intuition.
Qed.

(** ** The loops of the refresh leave the manager and the database alone *)

Lemma refreshCache_onboard_frame l acc s r s' :
  refreshCache_onboard E l acc s = Done r s' -> sameStore s s'.
Proof.
  revert acc s. induction l as [|[u c] l IH]; intros acc s; simpl.
  - intros [= _ <-]. apply sameStore_refl.
  - destruct (pem_Decode c) as [certPem|]; [|discriminate].
    destruct (x509_ParseCertificate (Bytes certPem)) as [cert|].
    + intros H. apply bind_done in H as (v & s1 & Hq & H).
      apply query_done in Hq as [-> _].
      destruct v as [e|v].
      * injection H as _ <-. apply sameStore_bump.
      * destruct (msgpack_UnmarshalSerials v).
        -- apply IH in H. eapply sameStore_trans; [apply sameStore_bump|exact H].
        -- injection H as _ <-. apply sameStore_bump.
    + intros [= _ <-]. apply sameStore_refl.
Qed.

Lemma refreshCache_devices_frame l dc ds s r s' :
  refreshCache_devices l dc ds s = Done r s' -> s' = s.
Proof.
  revert dc ds. induction l as [|[k c] l IH]; intros dc ds; simpl.
  - intros [= _ <-]. reflexivity.
  - destruct (uuid_FromString k); [|intros [= _ <-]; reflexivity].
    destruct (pem_Decode c) as [certPem|]; [|discriminate].
    destruct (x509_ParseCertificate (Bytes certPem));
      [apply IH | intros [= _ <-]; reflexivity].
Qed.

Lemma refreshCache_deviceOnboard_frame l ds s r s' :
  refreshCache_deviceOnboard l ds s = Done r s' -> s' = s.
Proof.
  revert ds. induction l as [|[k c] l IH]; intros ds; simpl.
  - intros [= _ <-]. reflexivity.
  - destruct (uuid_FromString k); [|intros [= _ <-]; reflexivity].
    destruct (pem_Decode c) as [certPem|]; [|discriminate].
    destruct (x509_ParseCertificate (Bytes certPem));
      [apply IH | intros [= _ <-]; reflexivity].
Qed.

Lemma refreshCache_deviceSerials_frame l ds s r s' :
  refreshCache_deviceSerials l ds s = Done r s' -> s' = s.
Proof.
  revert ds. induction l as [|[k c] l IH]; intros ds; simpl.
  - intros [= _ <-]. reflexivity.
  - destruct (uuid_FromString k); [apply IH | intros [= _ <-]; reflexivity].
Qed.

(** ** What the loops put into the maps *)

(** Some field of hash [h] has a name that reads as the UUID [u]. *)
Definition named (r : gmap string RValue) (h : string) (u : UUID) : Prop :=
  exists k v, Redis.HGet h k r = inr v /\ uuid_FromString k = Some u.

(** Some entry of the listing [l] has a name that reads as [u]. *)
Definition listed (l : list (string * string)) (u : UUID) : Prop :=
  exists k c, (k, c) ∈ l /\ uuid_FromString k = Some u.

Lemma listed_cons k c l u :
  listed ((k, c) :: l) u <-> uuid_FromString k = Some u \/ listed l u.
Proof.
  unfold listed. split.
  - intros (k' & c' & Hin & Hk). apply elem_of_cons in Hin as [[= -> ->]|Hin];
      [left; exact Hk | right; eauto].
  - intros [Hk|(k' & c' & Hin & Hk)].
    + exists k, c. split; [left | exact Hk].
    + exists k', c'. split; [right; exact Hin | exact Hk].
Qed.

Lemma refreshCache_devices_named l dc ds s dc' ds' s' :
  refreshCache_devices l dc ds s = Done (Ok (dc', ds')) s' ->
  (forall raw u, dc' !! raw = Some u -> dc !! raw = Some u \/ listed l u) /\
  (forall u, is_Some (ds' !! u) -> is_Some (ds !! u) \/ listed l u).
Proof.
  revert dc ds. induction l as [|[k c] l IH]; intros dc ds; simpl.
  - intros [= <- <- _]. auto.
  - destruct (uuid_FromString k) as [u0|] eqn:Hk; [|discriminate].
    destruct (pem_Decode c) as [certPem|]; [|discriminate].
    destruct (x509_ParseCertificate (Bytes certPem)) as [cert|]; [|discriminate].
    intros H. apply IH in H as [H1 H2]. split.
    + intros raw u Hl. rewrite listed_cons.
      destruct (H1 raw u Hl) as [Hin|Hin]; [|auto].
      apply lookup_insert_Some in Hin as [[_ <-]|[_ Hin]]; auto.
    + intros u Hl. rewrite listed_cons.
      destruct (H2 u Hl) as [Hin|Hin]; [|auto].
      rewrite lookup_insert_is_Some in Hin.
      destruct Hin as [<-|[_ Hin]]; auto.
Qed.

Lemma refreshCache_deviceOnboard_named l ds s ds' s' :
  refreshCache_deviceOnboard l ds s = Done (Ok ds') s' ->
  forall u, is_Some (ds' !! u) -> is_Some (ds !! u) \/ listed l u.
Proof.
  revert ds. induction l as [|[k c] l IH]; intros ds; simpl.
  - intros [= <- _]. auto.
  - destruct (uuid_FromString k) as [u0|] eqn:Hk; [|discriminate].
    destruct (pem_Decode c) as [certPem|]; [|discriminate].
    destruct (x509_ParseCertificate (Bytes certPem)) as [cert|]; [|discriminate].
    intros H u Hl. rewrite listed_cons.
    destruct (IH _ H u Hl) as [Hin|Hin]; [|auto].
    rewrite lookup_insert_is_Some in Hin.
    destruct Hin as [<-|[_ Hin]]; auto.
Qed.

Lemma refreshCache_deviceSerials_named l ds s ds' s' :
  refreshCache_deviceSerials l ds s = Done (Ok ds') s' ->
  forall u, is_Some (ds' !! u) -> is_Some (ds !! u) \/ listed l u.
Proof.
  revert ds. induction l as [|[k c] l IH]; intros ds; simpl.
  - intros [= <- _]. auto.
  - destruct (uuid_FromString k) as [u0|] eqn:Hk; [|discriminate].
    intros H u Hl. rewrite listed_cons.
    destruct (IH _ H u Hl) as [Hin|Hin]; [|auto].
    rewrite lookup_insert_is_Some in Hin.
    destruct Hin as [<-|[_ Hin]]; auto.
Qed.

(** A [range] over the fields of a hash lists fields of that hash. *)
Lemma listed_named (HE : EnvOK E) r h m n u :
  Redis.HGetAll h r = inr m ->
  listed (shuffle E n _ (map_to_list m)) u -> named r h u.
Proof.
  intros Hm (k & c & Hin & Hk). exists k, c. split; [|exact Hk].
  rewrite (HE n _ (map_to_list m)) in Hin.
  apply elem_of_map_to_list in Hin.
  unfold Redis.HGetAll in Hm. unfold Redis.HGet.
  destruct (r !! h) as [[m'|es]|].
  - injection Hm as ->. rewrite Hin. reflexivity.
  - discriminate.
  - injection Hm as <-. rewrite lookup_empty in Hin. discriminate.
Qed.

(** The device certificates of a cache come from the database. *)
Definition certsFrom (r : gmap string RValue) (dc : gmap string UUID) : Prop :=
  forall raw u, dc !! raw = Some u -> named r deviceCertsHash u.

(** So do its devices. *)
Definition devsFrom (r : gmap string RValue) (ds : gmap UUID deviceStorage)
    : Prop :=
  forall u, is_Some (ds !! u) ->
    named r deviceCertsHash u \/ named r deviceOnboardCertsHash u
    \/ named r deviceSerialsHash u.

(** *** Devices without an onboarding certificate *)

Lemma refreshCache_devices_zero l dc ds s dc' ds' s' :
  refreshCache_devices l dc ds s = Done (Ok (dc', ds')) s' ->
  (forall u dev, ds !! u = Some dev -> onboard dev = None) ->
  (forall u dev, ds' !! u = Some dev -> onboard dev = None) /\
  (forall u, is_Some (ds !! u) \/ listed l u -> is_Some (ds' !! u)).
Proof.
  revert dc ds. induction l as [|[k c] l IH]; intros dc ds; simpl.
  - intros [= <- <- _] Hz. split; [exact Hz|].
    intros u [Hu|(k & c & Hin & _)]; [exact Hu|]. by apply elem_of_nil in Hin.
  - destruct (uuid_FromString k) as [u0|] eqn:Hk; [|discriminate].
    destruct (pem_Decode c) as [certPem|]; [|discriminate].
    destruct (x509_ParseCertificate (Bytes certPem)) as [cert|]; [|discriminate].
    intros H Hz. apply IH in H as [H1 H2].
    + split; [exact H1|]. intros u Hu. apply H2.
      rewrite listed_cons in Hu. rewrite lookup_insert_is_Some.
      destruct Hu as [Hu|[Hu|Hu]]; [|left; left; congruence|auto].
      destruct (decide (u0 = u)); auto.
    + intros u dev Hl. apply lookup_insert_Some in Hl as [[_ <-]|[_ Hl]];
        [reflexivity | eauto].
Qed.

Lemma refreshCache_deviceOnboard_other l ds s ds' s' :
  refreshCache_deviceOnboard l ds s = Done (Ok ds') s' ->
  forall u, ~ listed l u -> ds' !! u = ds !! u.
Proof.
  revert ds. induction l as [|[k c] l IH]; intros ds; simpl.
  - intros [= <- _]. auto.
  - destruct (uuid_FromString k) as [u0|] eqn:Hk; [|discriminate].
    destruct (pem_Decode c) as [certPem|]; [|discriminate].
    destruct (x509_ParseCertificate (Bytes certPem)) as [cert|]; [|discriminate].
    intros H u Hn. rewrite listed_cons in Hn.
    rewrite (IH _ H u) by tauto.
    apply lookup_insert_ne. intros ->. tauto.
Qed.

Lemma refreshCache_deviceSerials_onboard l ds s ds' s' :
  refreshCache_deviceSerials l ds s = Done (Ok ds') s' ->
  forall u dev, ds !! u = Some dev ->
    exists dev', ds' !! u = Some dev' /\ onboard dev' = onboard dev.
Proof.
  revert ds. induction l as [|[k c] l IH]; intros ds; simpl.
  - intros [= <- _]. eauto.
  - destruct (uuid_FromString k) as [u0|] eqn:Hk; [|discriminate].
    intros H u dev Hl.
    destruct (decide (u0 = u)) as [->|Hne].
    + destruct (IH _ H u {| onboard := onboard (devItemOf u ds); serial := c |})
        as (dev' & Hl' & Ho).
      { apply lookup_insert_eq. }
      exists dev'. split; [exact Hl'|]. rewrite Ho. simpl.
      unfold devItemOf. rewrite Hl. reflexivity.
    + apply (IH _ H). rewrite lookup_insert_ne by done. exact Hl.
Qed.

Lemma named_listed (HE : EnvOK E) r h m n u :
  Redis.HGetAll h r = inr m ->
  named r h u -> listed (shuffle E n _ (map_to_list m)) u.
Proof.
  intros Hm (k & v & Hget & Hk). exists k, v. split; [|exact Hk].
  rewrite (HE n _ (map_to_list m)). apply elem_of_map_to_list.
  unfold Redis.HGetAll in Hm. unfold Redis.HGet in Hget.
  destruct (r !! h) as [[m'|es]|]; try discriminate.
  injection Hm as ->. destruct (m !! k); congruence.
Qed.

(** Every device with a certificate in the database and no onboarding
    certificate there is in the cache without one. *)
Definition nilOnboardFrom (r : gmap string RValue)
    (ds : gmap UUID deviceStorage) : Prop :=
  forall u, named r deviceCertsHash u -> ~ named r deviceOnboardCertsHash u ->
    exists dev, ds !! u = Some dev /\ onboard dev = None.

(** ** The course of a refresh *)

(** The manager after a refresh that loaded [oc], [dc] and [ds]. *)
Definition refreshed (now : Z) oc dc ds (d : DeviceManagerRedis) :=
  set_lastUpdate now
    (set_devices (Some ds)
       (set_deviceCerts (Some dc) (set_onboardCerts (Some oc) d))).

(** How far a call of [refreshCache] got: [d'] is the manager it
    leaves, [r] what it returns. *)
Inductive refreshStage (s : State) (r : option error) (d' : DeviceManagerRedis) : Prop :=
| stage_fresh :
    withinTTL (clock E (tick s)) (mgr s) = true -> r = None -> d' = mgr s ->
    refreshStage s r d'
| stage_failed_onboard e :
    withinTTL (clock E (tick s)) (mgr s) = false -> r = Some e -> d' = mgr s ->
    refreshStage s r d'
| stage_failed_devices e oc :
    withinTTL (clock E (tick s)) (mgr s) = false -> r = Some e ->
    d' = set_onboardCerts (Some oc) (mgr s) ->
    refreshStage s r d'
| stage_failed_rest e oc dc :
    withinTTL (clock E (tick s)) (mgr s) = false -> r = Some e ->
    (EnvOK E -> certsFrom (db s) dc) ->
    d' = set_deviceCerts (Some dc) (set_onboardCerts (Some oc) (mgr s)) ->
    refreshStage s r d'
| stage_loaded oc dc ds :
    withinTTL (clock E (tick s)) (mgr s) = false -> r = None ->
    (EnvOK E -> certsFrom (db s) dc) ->
    (EnvOK E -> devsFrom (db s) ds) ->
    (EnvOK E -> nilOnboardFrom (db s) ds) ->
    d' = refreshed (clock E (tick s)) oc dc ds (mgr s) ->
    refreshStage s r d'.

Lemma HGetAll_done h s r s' :
  HGetAll E h s = Done r s' ->
  s' = bump s /\ forall m, r = inr m -> Redis.HGetAll h (db s) = inr m.
Proof.
  intros H. apply query_done in H as [-> [[_ ->]|[_ ->]]]; split; auto.
  intros m [=].
Qed.

Lemma refreshCache_cases s r s' :
  refreshCache E s = Done r s' ->
  db s' = db s /\ refreshStage s r (mgr s').
Proof.
  unfold refreshCache.
  unfold bind at 1. unfold time_Now at 1.
  unfold bind at 1. unfold getMgr at 1.
  cbn [mgr bump].
  destruct (withinTTL _ _) eqn:Httl.
  { intros [= <- <-]. split; [reflexivity|]. by apply stage_fresh. }
  intros H. apply bind_done in H as (ocerts & s1 & Hq & H).
  apply HGetAll_done in Hq as [-> Hoc].
  destruct ocerts as [e|ocerts].
  { injection H as <- <-. split; [reflexivity|]. by eapply stage_failed_onboard. }
  apply bind_done in H as (l1 & s2 & [= <- <-] & H).
  apply bind_done in H as (r1 & s3 & Hl1 & H).
  apply refreshCache_onboard_frame in Hl1 as [Hm3 Hd3]. simpl in Hm3, Hd3.
  destruct r1 as [oc|e].
  2:{ injection H as <- <-. split; [done|]. by eapply stage_failed_onboard. }
  apply bind_done in H as ([] & s4 & [= <-] & H).
  apply bind_done in H as (dcerts & s5 & Hq & H).
  apply HGetAll_done in Hq as [-> Hdc]. simpl in Hdc. rewrite Hd3 in Hdc.
  destruct dcerts as [e|dcerts].
  { injection H as <- <-. split; [done|]. simpl. rewrite Hm3.
    by eapply stage_failed_devices. }
  apply bind_done in H as (l2 & s6 & [= <- <-] & H).
  apply bind_done in H as (r2 & s7 & Hl2 & H).
  pose proof (refreshCache_devices_frame _ _ _ _ _ _ Hl2) as ->.
  destruct r2 as [[dc ds]|e].
  2:{ injection H as <- <-. split; [done|]. simpl. rewrite Hm3.
    by eapply stage_failed_devices. }
  pose proof (refreshCache_devices_zero _ _ _ _ _ _ _ Hl2) as Hz.
  apply refreshCache_devices_named in Hl2 as [Hdc1 Hds1].
  assert (Hcf : EnvOK E -> certsFrom (db s) dc).
  { intros HE raw u Hl. destruct (Hdc1 raw u Hl) as [Hl'|Hl'].
    - rewrite lookup_empty in Hl'. discriminate.
    - eapply listed_named; eauto. }
  assert (Hdf1 : EnvOK E -> forall u, is_Some (ds !! u) ->
                   named (db s) deviceCertsHash u).
  { intros HE u Hl. destruct (Hds1 u Hl) as [Hl'|Hl'].
    - rewrite lookup_empty in Hl'. by destruct Hl'.
    - eapply listed_named; eauto. }
  clear Hdc1 Hds1.
  apply bind_done in H as ([] & s4 & [= <-] & H).
  apply bind_done in H as (docerts & s5 & Hq & H).
  apply HGetAll_done in Hq as [-> Hdo]. simpl in Hdo. rewrite Hd3 in Hdo.
  destruct docerts as [e|docerts].
  { injection H as <- <-. split; [done|]. simpl. rewrite Hm3.
    by eapply stage_failed_rest. }
  apply bind_done in H as (l3 & s6 & [= <- <-] & H).
  apply bind_done in H as (r3 & s7 & Hl3 & H).
  pose proof (refreshCache_deviceOnboard_frame _ _ _ _ _ Hl3) as ->.
  destruct r3 as [ds2|e].
  2:{ injection H as <- <-. split; [done|]. simpl. rewrite Hm3.
    by eapply stage_failed_rest. }
  pose proof (refreshCache_deviceOnboard_named _ _ _ _ _ Hl3) as Hds2.
  pose proof (refreshCache_deviceOnboard_other _ _ _ _ _ Hl3) as Hot.
  clear Hl3.
  apply bind_done in H as (dserials & s5 & Hq & H).
  apply HGetAll_done in Hq as [-> Hse]. simpl in Hse. rewrite Hd3 in Hse.
  destruct dserials as [e|dserials].
  { injection H as <- <-. split; [done|]. simpl. rewrite Hm3.
    by eapply stage_failed_rest. }
  apply bind_done in H as (l4 & s6 & [= <- <-] & H).
  apply bind_done in H as (r4 & s7 & Hl4 & H).
  pose proof (refreshCache_deviceSerials_frame _ _ _ _ _ Hl4) as ->.
  destruct r4 as [ds3|e].
  2:{ injection H as <- <-. split; [done|]. simpl. rewrite Hm3.
    by eapply stage_failed_rest. }
  pose proof (refreshCache_deviceSerials_named _ _ _ _ _ Hl4) as Hds3.
  pose proof (refreshCache_deviceSerials_onboard _ _ _ _ _ Hl4) as Hon.
  clear Hl4.
  injection H as <- <-. split; [done|]. simpl. rewrite Hm3.
  eapply stage_loaded; [done|done|exact Hcf| | |reflexivity].
  - intros HE u Hl.
    destruct (Hds3 u Hl) as [Hl'|Hl'].
    2:{ right; right. eapply listed_named; eauto. }
    destruct (Hds2 u Hl') as [Hl''|Hl''].
    2:{ right; left. eapply listed_named; eauto. }
    left. by apply Hdf1.
  - intros HE u Hn Hnn.
    destruct Hz as [Hz Hin]. { intros u' dev' Hl. by rewrite lookup_empty in Hl. }
    destruct (Hin u) as [dev Hdev].
    { right. eapply named_listed; eauto. }
    rewrite <- Hot in Hdev.
    2:{ intros Hl. apply Hnn. eapply listed_named; eauto. }
    destruct (Hon u dev Hdev) as (dev' & Hdev' & Ho).
    exists dev'. split; [exact Hdev'|]. rewrite Ho.
    rewrite Hot in Hdev.
    2:{ intros Hl. apply Hnn. eapply listed_named; eauto. }
    eapply Hz; eauto.
Qed.

Lemma time_Sub_mono now now' last :
  (now <= now')%Z -> (time_Sub now last <= time_Sub now' last)%Z.
Proof. unfold time_Sub. lia. Qed.

Lemma withinTTL_later now now' d :
  (now <= now')%Z -> withinTTL now d = false -> withinTTL now' d = false.
Proof.
  unfold withinTTL. intros Hle H.
  apply Z.ltb_ge in H. apply Z.ltb_ge.
  pose proof (time_Sub_mono now now' (lastUpdate d) Hle). lia.
Qed.

(** C2 (amended).  When [refreshCache] returns an error, the database,
    the devices map, [lastUpdate] and the timeout are as before the call,
    so that a call at any later reading of the clock attempts the refresh
    again; [onboardCerts], and after it [deviceCerts], are either as
    before or already replaced by the map just loaded: each map is
    replaced as soon as its own scan is complete. *)
Theorem refreshCache_error_partial s e s' :
  refreshCache E s = Done (Some e) s' ->
  db s' = db s /\
  devices (mgr s') = devices (mgr s) /\
  lastUpdate (mgr s') = lastUpdate (mgr s) /\
  cacheTimeout (mgr s') = cacheTimeout (mgr s) /\
  (mgr s' = mgr s \/
   (exists oc, mgr s' = set_onboardCerts (Some oc) (mgr s)) \/
   (exists oc dc,
      mgr s' = set_deviceCerts (Some dc) (set_onboardCerts (Some oc) (mgr s)))) /\
  (forall now', (clock E (tick s) <= now')%Z -> withinTTL now' (mgr s') = false).
Proof.
  intros H. apply refreshCache_cases in H as [Hdb Hst].
  split; [exact Hdb|].
  assert (Hlater : forall d, lastUpdate d = lastUpdate (mgr s) ->
            cacheTimeout d = cacheTimeout (mgr s) ->
            withinTTL (clock E (tick s)) (mgr s) = false ->
            forall now', (clock E (tick s) <= now')%Z -> withinTTL now' d = false).
  { intros d Hl Hc Hw now' Hle. eapply withinTTL_later in Hw; [|exact Hle].
    unfold withinTTL in *. rewrite Hl, Hc. exact Hw. }
  destruct Hst as [? [=] ?|e' Hw _ ->|e' oc Hw _ ->|e' oc dc Hw _ _ ->
                  |oc dc ds _ [=] _ _ _ _].
  - repeat split; auto.
  - repeat split; eauto.
  - repeat split; eauto 6.
Qed.

(** Every field of [r'] is a field of [r] with the same value. *)
Definition shrinks (r r' : gmap string RValue) : Prop :=
  forall h k v, Redis.HGet h k r' = inr v -> Redis.HGet h k r = inr v.

Lemma shrinks_refl r : shrinks r r.
Proof. intros h k v H. exact H. Qed.

Lemma shrinks_trans r1 r2 r3 : shrinks r1 r2 -> shrinks r2 r3 -> shrinks r1 r3.
Proof. intros H1 H2 h k v H. apply H1, H2, H. Qed.

Lemma HDel_shrinks h k r : shrinks r (Redis.HDel h k r).2.
Proof.
  unfold Redis.HDel.
  destruct (r !! h) as [[m|es]|] eqn:Hh; simpl; try apply shrinks_refl.
  destruct (m !! k) as [v0|] eqn:Hk; simpl; try apply shrinks_refl.
  intros h' k' v. unfold Redis.HGet.
  destruct (decide (h' = h)) as [->|Hne].
  - rewrite Hh. case_bool_decide.
    + rewrite lookup_delete_eq. discriminate.
    + rewrite lookup_insert_eq.
      destruct (decide (k' = k)) as [->|Hnk].
      * rewrite lookup_delete_eq. discriminate.
      * rewrite lookup_delete_ne by done. auto.
  - case_bool_decide.
    + rewrite lookup_delete_ne by done. auto.
    + rewrite lookup_insert_ne by done. auto.
Qed.

Lemma HDel_gone h k r v :
  (Redis.HDel h k r).1 = inr 1%Z -> Redis.HGet h k (Redis.HDel h k r).2 <> inr v.
Proof.
  unfold Redis.HDel.
  destruct (r !! h) as [[m|es]|] eqn:Hh; simpl; try discriminate.
  destruct (m !! k) as [v0|] eqn:Hk; simpl; try discriminate.
  intros _. unfold Redis.HGet. case_bool_decide.
  - rewrite lookup_delete_eq. discriminate.
  - rewrite lookup_insert_eq, lookup_delete_eq. discriminate.
Qed.

Lemma Del_shrinks k r : shrinks r (Redis.Del k r).2.
Proof.
  unfold Redis.Del. destruct (r !! k) eqn:Hk; simpl; try apply shrinks_refl.
  intros h' k' v. unfold Redis.HGet.
  destruct (decide (h' = k)) as [->|Hne].
  - rewrite lookup_delete_eq. discriminate.
  - rewrite lookup_delete_ne by done. auto.
Qed.

Lemma transactionDrop_from_done keys res s res' s' :
  transactionDrop_from E keys res s = Done res' s' ->
  mgr s' = mgr s /\ tick s' = tick s + length keys /\
  shrinks (db s) (db s') /\
  (res' = None ->
   res = None /\
   forall h k v, [h; k] ∈ keys -> Redis.HGet h k (db s') <> inr v).
Proof.
  revert res s. induction keys as [|key keys IH]; intros res s; simpl.
  - intros [= <- <-]. split; [done|]. split; [simpl; lia|].
    split; [apply shrinks_refl|]. intros ->. split; [done|].
    intros h k v Hin. by apply elem_of_nil in Hin.
  - destruct key as [|k0 [|k1 [|]]]; try discriminate.
    + intros H. apply bind_done in H as (r & s1 & Hc & H).
      apply command_done in Hc as (Hm & Ht & Hc).
      apply IH in H as (Hm' & Ht' & Hs' & Hnone).
      assert (Hs1 : shrinks (db s) (db s1)).
      { destruct Hc as [(_ & _ & ->)|(_ & _ & ->)];
          [apply shrinks_refl | apply Del_shrinks]. }
      split; [congruence|]. split; [simpl; lia|].
      split; [eapply shrinks_trans; eauto|].
      intros Hres. destruct (Hnone Hres) as [Hr Hg]. split.
      * destruct r as [e|[|[]|]]; try discriminate. exact Hr.
      * intros h k v Hin.
        apply elem_of_cons in Hin as [[=]|Hin]. by apply Hg.
    + intros H. apply bind_done in H as (r & s1 & Hc & H).
      apply command_done in Hc as (Hm & Ht & Hc).
      apply IH in H as (Hm' & Ht' & Hs' & Hnone).
      assert (Hs1 : shrinks (db s) (db s1)).
      { destruct Hc as [(_ & _ & ->)|(_ & _ & ->)];
          [apply shrinks_refl | apply HDel_shrinks]. }
      split; [congruence|]. split; [simpl; lia|].
      split; [eapply shrinks_trans; eauto|].
      intros Hres. destruct (Hnone Hres) as [Hr Hg]. split.
      * destruct r as [e|[|[]|]]; try discriminate. exact Hr.
      * intros h k v Hin.
        apply elem_of_cons in Hin as [[= -> ->]|Hin]; [|by apply Hg].
        intros Hget. apply Hs' in Hget.
        destruct r as [e|[|[]|]]; try discriminate.
        destruct Hc as [(_ & [=] & _)|(_ & Hr1 & Hdb)].
        rewrite Hdb in Hget. symmetry in Hr1.
        eapply HDel_gone; eauto.
Qed.

(** The three hashes from which a refresh learns of a device. *)
Definition deviceHash (h : string) : Prop :=
  h = deviceCertsHash \/ h = deviceOnboardCertsHash \/ h = deviceSerialsHash.

(** In the three device hashes, the only field name that reads as [u] is
    the canonical string of [u]. *)
Definition canonical (u : UUID) (r : gmap string RValue) : Prop :=
  forall h k v, deviceHash h -> Redis.HGet h k r = inr v ->
    uuid_FromString k = Some u -> k = uuid_String u.

(** No field of the three device hashes reads as [u]. *)
Definition unnamed (u : UUID) (r : gmap string RValue) : Prop :=
  forall h, deviceHash h -> ~ named r h u.

(** The cache does not know the device [u]. *)
Definition absent (u : UUID) (d : DeviceManagerRedis) : Prop :=
  rd (devices d) !! u = None /\
  forall raw, rd (deviceCerts d) !! raw <> Some u.

Lemma absent_certsFrom u r dc oc d :
  unnamed u r -> certsFrom r dc -> absent u d ->
  absent u (set_deviceCerts (Some dc) (set_onboardCerts (Some oc) d)).
Proof.
  intros Hun Hcf [Hd Hc]. split; [exact Hd|].
  intros raw Hl. simpl in Hl. apply Hcf in Hl.
  eapply Hun; [|exact Hl]. left. reflexivity.
Qed.

Lemma absent_loaded u r now oc dc ds d :
  unnamed u r -> certsFrom r dc -> devsFrom r ds ->
  absent u (refreshed now oc dc ds d).
Proof.
  intros Hun Hcf Hdf. split; simpl.
  - destruct (ds !! u) as [dev|] eqn:Hl; [|reflexivity].
    destruct (Hdf u (mk_is_Some _ _ Hl)) as [H|[H|H]]; exfalso;
      (eapply Hun; [|exact H]); unfold deviceHash; auto.
  - intros raw Hl. apply Hcf in Hl.
    eapply Hun; [|exact Hl]. left. reflexivity.
Qed.

(** A refresh from a database that does not name [u] never brings [u]
    into the cache, and removes it when the refresh runs to its end. *)
Lemma refreshCache_absent (HE : EnvOK E) u s r s' :
  unnamed u (db s) ->
  refreshCache E s = Done r s' ->
  (absent u (mgr s) -> absent u (mgr s')) /\
  (withinTTL (clock E (tick s)) (mgr s) = false -> r = None ->
   absent u (mgr s')).
Proof.
  intros Hun H. apply refreshCache_cases in H as [Hdb Hst].
  destruct Hst as [Hw -> ->|e Hw -> ->|e oc Hw -> ->|e oc dc Hw -> Hcf ->
                  |oc dc ds Hw -> Hcf Hdf _ ->].
  - split; [auto|]. congruence.
  - split; [auto|]. discriminate.
  - split; [|discriminate]. intros [Hd Hc]. split; assumption.
  - split; [|discriminate]. apply (absent_certsFrom u (db s)); auto.
  - split; intros; apply (absent_loaded u (db s)); auto.
Qed.

Lemma DeviceRemove_done u s s' :
  DeviceRemove E (Some u) s = Done None s' ->
  exists s1,
    mgr s1 = mgr s /\ tick s1 = tick s + 7 /\ shrinks (db s) (db s1) /\
    (forall h v, deviceHash h ->
       Redis.HGet h (uuid_String u) (db s1) <> inr v) /\
    refreshCache E s1 = Done None s'.
Proof.
  unfold DeviceRemove. intros H.
  apply bind_done in H as (err & s1 & Hdrop & H).
  destruct err as [e|]; [discriminate|].
  apply transactionDrop_from_done in Hdrop as (Hm & Ht & Hs & Hnone).
  destruct (Hnone eq_refl) as [_ Hg].
  apply bind_done in H as (err & s2 & Hr & H).
  destruct err as [e|]; [discriminate|]. injection H as <-.
  exists s1. split; [exact Hm|]. split; [exact Ht|]. split; [exact Hs|].
  split; [|exact Hr].
  intros h v [-> | [-> | ->]]; apply Hg; repeat constructor.
Qed.

Lemma unnamed_after_drop u r r' :
  canonical u r -> shrinks r r' ->
  (forall h v, deviceHash h -> Redis.HGet h (uuid_String u) r' <> inr v) ->
  unnamed u r'.
Proof.
  intros Hcan Hs Hg h Hh (k & v & Hget & Hk).
  assert (k = uuid_String u) as ->.
  { eapply Hcan; eauto. }
  eapply Hg; eauto.
Qed.

Lemma DeviceList_absent (HE : EnvOK E) u s l s' :
  unnamed u (db s) -> absent u (mgr s) ->
  DeviceList E s = Done (Ok l) s' -> u ∉ l.
Proof.
  intros Hun Hab H. unfold DeviceList in H.
  apply bind_done in H as (err & s1 & Hr & H).
  destruct err as [e|]; [discriminate|].
  apply (refreshCache_absent HE u) in Hr as [Hr _]; [|exact Hun].
  destruct (Hr Hab) as [Hd _].
  apply bind_done in H as (d & s2 & [= <- <-] & H).
  apply bind_done in H as (l' & s3 & [= <- <-] & H).
  injection H as <- <-.
  intros Hin. apply list_elem_of_fmap in Hin as ([u' dev] & -> & Hin).
  rewrite (HE _ _ _) in Hin. apply elem_of_map_to_list in Hin.
  simpl in Hd. congruence.
Qed.

Lemma DeviceCheckCert_absent (HE : EnvOK E) u s c r s' :
  unnamed u (db s) -> absent u (mgr s) ->
  DeviceCheckCert E (Some c) s = Done (Ok r) s' -> r <> Some u.
Proof.
  intros Hun Hab H. unfold DeviceCheckCert in H.
  apply bind_done in H as (err & s1 & Hr & H).
  destruct err as [e|]; [discriminate|].
  apply (refreshCache_absent HE u) in Hr as [Hr _]; [|exact Hun].
  destruct (Hr Hab) as [_ Hc].
  apply bind_done in H as (d & s2 & [= <- <-] & H).
  injection H as <- <-. apply Hc.
Qed.

(** C4 (amended).  After [DeviceRemove] has returned success, the cache
    is the one [refreshCache] leaves at the clock reading that follows the
    seven deletions.  Within the time-to-live that refresh does nothing
    and the cache is as before the call.  Past the time-to-live, and when
    the only field name of the device hashes that reads as the UUID is its
    canonical string, the UUID is neither a key of the devices map nor a
    value of the device certificates map, a following [DeviceList] does
    not include it and a following [DeviceCheckCert] does not return it. *)
Theorem DeviceRemove_refresh (HE : EnvOK E) u s s' :
  DeviceRemove E (Some u) s = Done None s' ->
  (withinTTL (clock E (tick s + 7)) (mgr s) = true -> mgr s' = mgr s) /\
  (withinTTL (clock E (tick s + 7)) (mgr s) = false ->
   canonical u (db s) ->
   absent u (mgr s') /\
   (forall l s'', DeviceList E s' = Done (Ok l) s'' -> u ∉ l) /\
   (forall c r s'', DeviceCheckCert E (Some c) s' = Done (Ok r) s'' ->
      r <> Some u)).
Proof.
  intros H. apply DeviceRemove_done in H as (s1 & Hm & Ht & Hs & Hg & Hr).
  rewrite <- Ht, <- Hm. split.
  - intros Hw. apply refreshCache_cases in Hr as [_ Hst].
    destruct Hst; congruence.
  - intros Hw Hcan.
    assert (Hun : unnamed u (db s1)) by (eapply unnamed_after_drop; eauto).
    pose proof Hr as Hdb. apply refreshCache_cases in Hdb as [Hdb _].
    apply (refreshCache_absent HE u) in Hr as [_ Hab]; [|exact Hun].
    specialize (Hab Hw eq_refl). rewrite <- Hdb in Hun.
    split; [exact Hab|]. split.
    + intros l s''. by apply DeviceList_absent.
    + intros c r s''. by apply DeviceCheckCert_absent.
Qed.

(** ** The reuse scan *)

(** The device was registered with the onboarding certificate of
    identity [certStr] and the serial [ser]. *)
Definition uses (dev : deviceStorage) (certStr ser : string) : Prop :=
  exists oc, onboard dev = Some oc /\ Raw oc = certStr /\ ser = serial dev.

(** Some cached device uses the pair. *)
Definition used (d : DeviceManagerRedis) (certStr ser : string) : Prop :=
  exists u dev, rd (devices d) !! u = Some dev /\ uses dev certStr ser.

(** Some cached device has no onboarding certificate. *)
Definition hasNilOnboard (d : DeviceManagerRedis) : Prop :=
  exists u dev, rd (devices d) !! u = Some dev /\ onboard dev = None.

(** The pair is valid for onboarding: the identity is a key of
    [onboardCerts] and its set holds the serial or the wildcard. *)
Definition validSerial (d : DeviceManagerRedis) (certStr ser : string) : Prop :=
  exists c, rd (onboardCerts d) !! certStr = Some c /\
            (is_Some (c !! ser) \/ is_Some (c !! "*")).

Lemma checkValidOnboardSerial_None d cert ser :
  checkValidOnboardSerial d cert ser = None <-> validSerial d (Raw cert) ser.
Proof.
  unfold checkValidOnboardSerial, validSerial.
  destruct (rd (onboardCerts d) !! Raw cert) as [c|].
  - repeat case_bool_decide; split; try discriminate; eauto.
    intros (c' & [= <-] & [?|?]); contradiction.
  - split; [discriminate|]. intros (c & [=] & _).
Qed.

Lemma checkValidOnboardSerial_unknown d cert ser :
  rd (onboardCerts d) !! Raw cert = None ->
  checkValidOnboardSerial d cert ser
  = Some (InvalidCertError "unknown onboarding certificate").
Proof. unfold checkValidOnboardSerial. intros ->. reflexivity. Qed.

Lemma checkValidOnboardSerial_invalid d cert ser c :
  rd (onboardCerts d) !! Raw cert = Some c ->
  c !! ser = None -> c !! "*" = None ->
  checkValidOnboardSerial d cert ser
  = Some (InvalidSerialError ("unknown serial: " +:+ ser)).
Proof.
  unfold checkValidOnboardSerial. intros -> Hs Hw.
  rewrite !bool_decide_eq_false_2; [reflexivity| |];
    rewrite ?Hw, ?Hs; by intros [? ?].
Qed.

Lemma uses_dec dev certStr ser oc :
  onboard dev = Some oc ->
  bool_decide (Raw oc = certStr) && bool_decide (ser = serial dev) = true
  <-> uses dev certStr ser.
Proof.
  intros Ho. rewrite andb_true_iff, !bool_decide_eq_true. unfold uses. split.
  - intros [? ?]. eauto.
  - intros (oc' & Ho' & ? & ?). rewrite Ho in Ho'. injection Ho' as <-. auto.
Qed.

(** The scan over a listing: it stops at the first entry that uses the
    pair, and panics at the first entry without an onboarding certificate
    that it reaches before. *)
Lemma scan_any certStr ser l s :
  (exists u, getOnboardSerialDevice_from certStr ser l s = Done (Some u) s /\
     exists dev, (u, dev) ∈ l /\ uses dev certStr ser) \/
  (getOnboardSerialDevice_from certStr ser l s = Done None s /\
     forall u dev, (u, dev) ∈ l -> is_Some (onboard dev) /\ ~ uses dev certStr ser) \/
  (getOnboardSerialDevice_from certStr ser l s = Panic nilDeref /\
     exists u dev, (u, dev) ∈ l /\ onboard dev = None).
Proof.
  induction l as [|[u dev] l IH]; simpl.
  - right; left. split; [reflexivity|]. intros u dev Hin.
    by apply elem_of_nil in Hin.
  - destruct (onboard dev) as [oc|] eqn:Ho.
    2:{ right; right. split; [reflexivity|]. exists u, dev. split; [left|done]. }
    destruct (bool_decide (Raw oc = certStr) && bool_decide (ser = serial dev))
      eqn:Hm.
    + left. exists u. split; [reflexivity|]. exists dev. split; [left|].
      by apply (uses_dec dev certStr ser oc).
    + destruct IH as [(u' & Hr & dev' & Hin & Hu)|[[Hr Hall]|[Hr Hex]]].
      * left. exists u'. split; [exact Hr|]. exists dev'. split; [by right|done].
      * right; left. split; [exact Hr|]. intros u' dev' Hin.
        apply elem_of_cons in Hin as [[= -> ->]|Hin]; [|by apply (Hall u')].
        split; [by rewrite Ho|].
        rewrite <- (uses_dec _ _ _ _ Ho). by rewrite Hm.
      * right; right. split; [exact Hr|].
        destruct Hex as (u' & dev' & Hin & Hnil).
        exists u', dev'. split; [by right|done].
Qed.

Lemma getOnboardSerialDevice_any (HE : EnvOK E) c ser s :
  (exists u, getOnboardSerialDevice E c ser s = Done (Some u) (bump s) /\
     used (mgr s) (Raw c) ser) \/
  (getOnboardSerialDevice E c ser s = Done None (bump s) /\
     ~ hasNilOnboard (mgr s) /\ ~ used (mgr s) (Raw c) ser) \/
  (getOnboardSerialDevice E c ser s = Panic nilDeref /\ hasNilOnboard (mgr s)).
Proof.
  unfold getOnboardSerialDevice, bind, getMgr, range.
  set (l := shuffle E (tick s) _ (map_to_list (rd (devices (mgr s))))).
  assert (Hl : forall u dev, (u, dev) ∈ l <-> rd (devices (mgr s)) !! u = Some dev).
  { intros u dev. unfold l. rewrite (HE _ _ _). apply elem_of_map_to_list. }
  destruct (scan_any (Raw c) ser l (bump s))
    as [(u & Hr & dev & Hin & Hu)|[[Hr Hall]|[Hr (u & dev & Hin & Hnil)]]].
  - left. exists u. split; [exact Hr|]. exists u, dev. by rewrite <- Hl.
  - right; left. split; [exact Hr|]. split.
    + intros (u & dev & Hin & Hnil). apply Hl, Hall in Hin as [[? Ho] _].
      congruence.
    + intros (u & dev & Hin & Hu). apply Hl, Hall in Hin as [_ Hn]. tauto.
  - right; right. split; [exact Hr|]. exists u, dev. by rewrite <- Hl.
Qed.

Definition usedSerial (ser : string) : error :=
  UsedSerialError ("serial already used for onboarding certificate: " +:+ ser).

Lemma OnboardCheck_after_refresh c ser s s1 :
  refreshCache E s = Done None s1 ->
  OnboardCheck E (Some c) ser s
  = match checkValidOnboardSerial (mgr s1) c ser with
    | Some e => Done (Some e) s1
    | None =>
        match getOnboardSerialDevice E c ser s1 with
        | Done (Some _) s' => Done (Some (usedSerial ser)) s'
        | Done None s' => Done None s'
        | Panic msg => Panic msg
        end
    end.
Proof.
  intros Hr. unfold OnboardCheck. rewrite (bind_step _ _ _ _ _ Hr).
  unfold bind at 1, getMgr at 1.
  destruct (checkValidOnboardSerial (mgr s1) c ser); [reflexivity|].
  unfold bind. destruct (getOnboardSerialDevice E c ser s1) as [[u|] s'|];
    reflexivity.
Qed.

(** [OnboardCheck] on a cache in which every device has an onboarding
    certificate: it decides as the three conditions say. *)
Lemma OnboardCheck_decides (HE : EnvOK E) c ser s s1 :
  refreshCache E s = Done None s1 ->
  ~ hasNilOnboard (mgr s1) ->
  exists r s',
    OnboardCheck E (Some c) ser s = Done r s' /\
    (r = None <->
     validSerial (mgr s1) (Raw c) ser /\ ~ used (mgr s1) (Raw c) ser) /\
    (rd (onboardCerts (mgr s1)) !! Raw c = None ->
     r = Some (InvalidCertError "unknown onboarding certificate")) /\
    (forall set, rd (onboardCerts (mgr s1)) !! Raw c = Some set ->
       set !! ser = None -> set !! "*" = None ->
       r = Some (InvalidSerialError ("unknown serial: " +:+ ser))) /\
    (validSerial (mgr s1) (Raw c) ser -> used (mgr s1) (Raw c) ser ->
     r = Some (usedSerial ser)).
Proof.
  intros Hr Hnn. rewrite (OnboardCheck_after_refresh _ _ _ _ Hr).
  destruct (checkValidOnboardSerial (mgr s1) c ser) as [e|] eqn:Hv.
  - exists (Some e), s1. split; [reflexivity|].
    assert (Hnv : ~ validSerial (mgr s1) (Raw c) ser).
    { rewrite <- checkValidOnboardSerial_None. congruence. }
    split; [|split; [|split]].
    + split; [discriminate | tauto].
    + intros Hu. rewrite (checkValidOnboardSerial_unknown _ _ _ Hu) in Hv.
      congruence.
    + intros set H1 H2 H3.
      rewrite (checkValidOnboardSerial_invalid _ _ _ _ H1 H2 H3) in Hv.
      congruence.
    + tauto.
  - apply checkValidOnboardSerial_None in Hv.
    assert (Hset : forall set, rd (onboardCerts (mgr s1)) !! Raw c = Some set ->
              set !! ser = None -> set !! "*" = None -> False).
    { intros set H1 H2 H3. destruct Hv as (c' & Hc' & Hor).
      rewrite H1 in Hc'. injection Hc' as <-.
      rewrite H2, H3 in Hor. destruct Hor as [[? ?]|[? ?]]; discriminate. }
    assert (Hunk : rd (onboardCerts (mgr s1)) !! Raw c <> None).
    { destruct Hv as (c' & Hc' & _). congruence. }
    destruct (getOnboardSerialDevice_any HE c ser s1)
      as [(u & Hg & Hu)|[(Hg & _ & Hnu)|[_ Hnil]]]; [| |contradiction].
    + exists (Some (usedSerial ser)), (bump s1).
      rewrite Hg. split; [reflexivity|].
      split; [|split; [|split]]; try tauto.
      * split; [discriminate|tauto].
      * intros set H1 H2 H3. exfalso. eauto.
    + exists None, (bump s1).
      rewrite Hg. split; [reflexivity|].
      split; [|split; [|split]]; try tauto.
      intros set H1 H2 H3. exfalso. eauto.
Qed.

(** C10 (amended).  A refresh that runs to its end leaves in the cache,
    without an onboarding certificate, every device that has a
    device-certificate record and no device-onboarding-certificate record.
    When the cache that [OnboardCheck] consults after its refresh holds a
    device without an onboarding certificate, the call panics on the nil
    certificate for every certificate and serial that pass the validity
    check and that no cached device uses; when a cached device uses the
    pair, the call panics or returns the used-serial error, as the order
    of the scan decides; when the pair fails the validity check, the call
    returns the error of that check and does not panic. *)
Theorem OnboardCheck_nil_onboard (HE : EnvOK E) s s1 :
  refreshCache E s = Done None s1 ->
  (forall u,
     withinTTL (clock E (tick s)) (mgr s) = false ->
     named (db s) deviceCertsHash u ->
     ~ named (db s) deviceOnboardCertsHash u ->
     exists dev, rd (devices (mgr s1)) !! u = Some dev /\ onboard dev = None) /\
  (hasNilOnboard (mgr s1) ->
   forall c ser,
     (validSerial (mgr s1) (Raw c) ser -> ~ used (mgr s1) (Raw c) ser ->
      OnboardCheck E (Some c) ser s = Panic nilDeref) /\
     (validSerial (mgr s1) (Raw c) ser -> used (mgr s1) (Raw c) ser ->
      OnboardCheck E (Some c) ser s = Panic nilDeref \/
      OnboardCheck E (Some c) ser s = Done (Some (usedSerial ser)) (bump s1)) /\
     (~ validSerial (mgr s1) (Raw c) ser ->
      exists e, OnboardCheck E (Some c) ser s = Done (Some e) s1 /\
        (e = InvalidCertError "unknown onboarding certificate" \/
         e = InvalidSerialError ("unknown serial: " +:+ ser)))).
Proof.
  intros Hr. split.
  - intros u Hw Hn Hnn. pose proof Hr as Hst.
    apply refreshCache_cases in Hst as [_ Hst].
    destruct Hst as [Hw' _ _| | | |oc dc ds _ _ _ _ Hnil ->]; try congruence.
    simpl. by apply Hnil.
  - intros Hnil c ser. rewrite (OnboardCheck_after_refresh _ _ _ _ Hr).
    destruct (checkValidOnboardSerial (mgr s1) c ser) as [e|] eqn:Hv.
    + assert (Hnv : ~ validSerial (mgr s1) (Raw c) ser).
      { rewrite <- checkValidOnboardSerial_None. congruence. }
      split; [tauto|]. split; [tauto|]. intros _.
      exists e. split; [reflexivity|].
      unfold checkValidOnboardSerial in Hv.
      destruct (rd (onboardCerts (mgr s1)) !! Raw c); [|left; congruence].
      repeat case_bool_decide; try discriminate. right. congruence.
    + apply checkValidOnboardSerial_None in Hv.
      destruct (getOnboardSerialDevice_any HE c ser s1)
        as [(u & Hg & Hu)|[(Hg & Hnn & Hnu)|[Hg _]]].
      * rewrite Hg. split; [tauto|]. split; [|tauto].
        intros _ _. right. reflexivity.
      * contradiction.
      * rewrite Hg. split; [reflexivity|].
        split; [|tauto]. intros _ _. left. reflexivity.
Qed.

(** ** Calls that leave the cache alone *)

Definition keepsMgr {A} (m : M A) : Prop :=
  forall s a s', m s = Done a s' -> mgr s' = mgr s.

Lemma keepsMgr_ret {A} (a : A) : keepsMgr (ret a).
Proof. intros s a' s' [= _ <-]. reflexivity. Qed.

Lemma keepsMgr_bind {A B} (m : M A) (k : A -> M B) :
  keepsMgr m -> (forall a, keepsMgr (k a)) -> keepsMgr (bind m k).
Proof.
  intros Hm Hk s b s' H. apply bind_done in H as (a & s1 & H1 & H2).
  rewrite (Hk _ _ _ _ H2). eapply Hm, H1.
Qed.

Lemma keepsMgr_query {A} (f : gmap string RValue -> RedisErr + A) :
  keepsMgr (query E f).
Proof. intros s a s' H. apply query_done in H as [-> _]. reflexivity. Qed.

Lemma keepsMgr_command {A}
    (f : gmap string RValue -> (RedisErr + A) * gmap string RValue) :
  keepsMgr (command E f).
Proof. intros s a s' H. apply command_done in H as [H _]. exact H. Qed.

Lemma keepsMgr_XAdd stream n values : keepsMgr (XAdd E stream n values).
Proof. intros s a s' H. apply command_done in H as [H _]. exact H. Qed.

Ltac keeps :=
  repeat first
    [ apply keepsMgr_ret
    | apply keepsMgr_query
    | apply keepsMgr_command
    | apply keepsMgr_XAdd
    | apply keepsMgr_bind; [|intros ?]
    | match goal with
      | |- keepsMgr (match ?x with _ => _ end) => destruct x
      end ].





Lemma keepsMgr_writeProtobufToStream stream msg :
  keepsMgr (writeProtobufToStream E stream msg).
Proof. unfold writeProtobufToStream. keeps. Qed.


(** ** Registration *)





Lemma refreshCache_fresh s :
  withinTTL (clock E (tick s)) (mgr s) = true ->
  refreshCache E s = Done None (bump s).
Proof.
  intros Hw. unfold refreshCache, bind, time_Now, getMgr. simpl.
  rewrite Hw. reflexivity.
Qed.


(** ** Configuration *)

Lemma hsetSave_ok hash key v s :
  fault E (tick s) = false -> fault E (S (tick s)) = false ->
  (forall es, db s !! hash <> Some (RStream es)) ->
  exists s',
    hsetSave E hash key v s = Done None s' /\
    mgr s' = mgr s /\ tick s' = S (S (tick s)) /\
    db s' = (Redis.HSet hash key v (db s)).2 /\
    Redis.HGet hash key (db s') = inr v.
Proof.
  intros Hf1 Hf2 Hty. unfold hsetSave, HSet, Save.
  assert (Hset : exists b, (Redis.HSet hash key v (db s)).1 = inr b).
  { unfold Redis.HSet. destruct (db s !! hash) as [[m|es]|] eqn:Hh; simpl; eauto.
    by destruct (Hty es). }
  destruct Hset as [b Hb].
  rewrite (bind_step _ _ _ _ _ (command_ok _ _ Hf1)). rewrite Hb.
  rewrite (bind_step _ _ _ _ _
             (query_ok _ (bump (set_db (Redis.HSet hash key v (db s)).2 s)) Hf2)).
  eexists. split; [reflexivity|]. simpl. split_and!; try done.
  unfold Redis.HSet, Redis.HGet.
  destruct (db s !! hash) as [[m|es]|] eqn:Hh; simpl.
  - by rewrite !lookup_insert_eq.
  - by destruct (Hty es).
  - rewrite lookup_insert_eq. by rewrite lookup_singleton_eq.
Qed.

Lemma hsetSave_done hash key v s r s' :
  hsetSave E hash key v s = Done r s' ->
  mgr s' = mgr s /\
  (db s' = db s \/ exists b, (Redis.HSet hash key v (db s)).1 = inr b /\
                            db s' = (Redis.HSet hash key v (db s)).2).
Proof.
  unfold hsetSave, HSet, Save. intros H.
  apply bind_done in H as (r1 & s1 & Hc & H).
  apply command_done in Hc as (Hm & Ht & Hc).
  destruct r1 as [e|b].
  - injection H as <- <-. split; [exact Hm|].
    destruct Hc as [(_ & _ & Hdb)|(_ & He & Hdb)]; [by left|].
    left. rewrite Hdb. unfold Redis.HSet in *.
    destruct (db s !! hash) as [[m|es]|]; simpl in *; try discriminate.
    reflexivity.
  - apply bind_done in H as (r2 & s2 & Hq & H).
    apply query_done in Hq as [-> _].
    assert (s' = bump s1) as ->.
    { destruct r2; by injection H as <- <-. }
    split; [exact Hm|]. simpl.
    destruct Hc as [(_ & [=] & _)|(_ & He & Hdb)]. right. eauto.
Qed.

Definition mismatched (u : UUID) (c : EdgeDevConfig) : Prop :=
  Id c = None \/ exists id, Id c = Some id /\ Uuid id <> uuid_String u.

(** C6.  [SetConfig] rejects a nil document ("empty configuration") and a
    document whose embedded UUID is missing or differs from the target
    ("mismatched UUID") without touching the state; after a successful
    refresh it rejects a UUID that is not a key of the devices cache
    ("unregistered device") and leaves the database as it was; a failure
    of any kind other than the failed save leaves the database as it was;
    and when the document passes both checks and the write goes through,
    the stored document for the UUID is the new one, whatever was stored
    before. *)
Theorem SetConfig_spec u m s :
  (m = None ->
   SetConfig E u m s = Done (Some (Errorf "empty configuration" [])) s) /\
  (forall c, m = Some c -> mismatched u c ->
   SetConfig E u m s = Done (Some (Errorf "mismatched UUID" [])) s) /\
  (forall c s1, m = Some c -> ~ mismatched u c ->
     refreshCache E s = Done None s1 ->
     (rd (devices (mgr s1)) !! u = None ->
      SetConfig E u m s
      = Done (Some (Errorf "unregistered device UUID %s" [])) s1 /\
      db s1 = db s) /\
     (forall v, is_Some (rd (devices (mgr s1)) !! u) ->
        msgpack_MarshalConfig c = Some v ->
        fault E (tick s1) = false -> fault E (S (tick s1)) = false ->
        (forall es, db s !! deviceConfigsHash <> Some (RStream es)) ->
        exists s',
          SetConfig E u m s = Done None s' /\
          Redis.HGet deviceConfigsHash (uuid_String u) (db s') = inr v)) /\
  (forall e s', SetConfig E u m s = Done (Some e) s' ->
     db s' = db s \/
     exists re, e = Errorf "failed to save config for %s: %v"
                           [Some (redis_error re)]).
Proof.
  assert (Hcheck : forall c, ~ mismatched u c ->
            match Id c with
            | Some id => negb (bool_decide (Uuid id = uuid_String u))
            | None => true
            end = false).
  { intros c Hn. unfold mismatched in Hn. destruct (Id c) as [id|]; [|tauto].
    case_bool_decide; [reflexivity|]. exfalso. apply Hn. eauto. }
  assert (Hcheck' : forall c, mismatched u c ->
            match Id c with
            | Some id => negb (bool_decide (Uuid id = uuid_String u))
            | None => true
            end = true).
  { intros c [->|(id & -> & Hne)]; [reflexivity|].
    by rewrite bool_decide_eq_false_2. }
  split_and!.
  - intros ->. reflexivity.
  - intros c -> Hmis. unfold SetConfig. by rewrite Hcheck'.
  - intros c s1 -> Hn Hr. pose proof Hr as Hdb.
    apply refreshCache_cases in Hdb as [Hdb _].
    unfold SetConfig. rewrite (Hcheck c Hn).
    rewrite (bind_step _ _ _ _ _ Hr). unfold bind at 1, getMgr at 1.
    unfold bind at 2, getMgr at 1. split.
    + intros ->. split; [reflexivity|exact Hdb].
    + intros v [dev ->] -> Hf1 Hf2 Hty.
      destruct (hsetSave_ok deviceConfigsHash (uuid_String u) v s1 Hf1 Hf2)
        as (s' & Hs & _ & _ & _ & Hget).
      { by rewrite Hdb. }
      exists s'. rewrite (bind_step _ _ _ _ _ Hs). auto.
  - intros e s'. unfold SetConfig. destruct m as [c|].
    2:{ intros [= _ <-]. by left. }
    destruct (match Id c with Some _ => _ | None => _ end).
    { intros [= _ <-]. by left. }
    intros H. apply bind_done in H as (err & s1 & Hr & H).
    apply refreshCache_cases in Hr as [Hdb _].
    destruct err as [e'|]. { injection H as _ <-. by left. }
    apply bind_done in H as (d & s2 & [= <- <-] & H).
    destruct (rd (devices (mgr s1)) !! u). 2:{ injection H as _ <-. by left. }
    destruct (msgpack_MarshalConfig c) as [v|].
    2:{ injection H as _ <-. by left. }
    apply bind_done in H as (err & s2 & Hs & H).
    destruct err as [re|]; [|discriminate].
    injection H as <- <-. right. eauto.
Qed.



(** ** Reading a device *)

(** The record of [key] in [hash] is readable and decodes to [c]. *)
Definition certStored (r : gmap string RValue) (hash key : string)
    (c : Certificate) : Prop :=
  exists v, Redis.HGet hash key r = inr v /\ ax_ParseCert v = Some c.

(** The record of [key] in [hash] cannot be read or cannot be decoded. *)
Definition certBroken (r : gmap string RValue) (hash key : string) : Prop :=
  (exists e, Redis.HGet hash key r = inl e) \/
  (exists v, Redis.HGet hash key r = inr v /\ ax_ParseCert v = None).

Lemma readCert_ok hash key s c :
  fault E (tick s) = false -> certStored (db s) hash key c ->
  readCert E hash key s = Done (Ok c) (bump s).
Proof.
  intros Hf (v & Hget & Hp). unfold readCert, HGet.
  rewrite (bind_step _ _ _ _ _ (query_ok _ _ Hf)). rewrite Hget, Hp.
  reflexivity.
Qed.

Lemma readCert_fails hash key s :
  fault E (tick s) = true \/ certBroken (db s) hash key ->
  exists e, readCert E hash key s = Done (Err e) (bump s).
Proof.
  intros H. unfold readCert, HGet, bind, query.
  destruct (fault E (tick s)); [eauto|].
  destruct H as [[=]|[[e ->]|(v & -> & ->)]]; eauto.
Qed.

(** C8.  [DeviceGet] on a UUID whose device certificate and onboarding
    certificate are readable and decodable returns both; when the read of
    the serial fails, for whatever reason, the serial returned is empty
    and there is no error.  When the device certificate or the onboarding
    certificate cannot be read or decoded, it returns an error and no
    certificate and no serial. *)
Theorem DeviceGet_spec u s :
  let k := uuid_String u in
  (forall c o,
     fault E (tick s) = false -> certStored (db s) deviceCertsHash k c ->
     fault E (S (tick s)) = false ->
     certStored (db s) deviceOnboardCertsHash k o ->
     (fault E (S (S (tick s))) = true \/
      (exists e, Redis.HGet deviceSerialsHash k (db s) = inl e) ->
      DeviceGet E (Some u) s
      = Done (Some c, Some o, "", None) (bump (bump (bump s)))) /\
     (forall v, fault E (S (S (tick s))) = false ->
        Redis.HGet deviceSerialsHash k (db s) = inr v ->
        DeviceGet E (Some u) s
        = Done (Some c, Some o, v, None) (bump (bump (bump s))))) /\
  (fault E (tick s) = true \/ certBroken (db s) deviceCertsHash k ->
   exists e, DeviceGet E (Some u) s = Done (None, None, "", Some e) (bump s)) /\
  (forall c,
     fault E (tick s) = false -> certStored (db s) deviceCertsHash k c ->
     fault E (S (tick s)) = true \/ certBroken (db s) deviceOnboardCertsHash k ->
     exists e,
       DeviceGet E (Some u) s = Done (None, None, "", Some e) (bump (bump s))).
Proof.
  intros k. split_and!.
  - intros c o Hf0 Hc Hf1 Ho.
    unfold DeviceGet. fold k.
    rewrite (bind_step _ _ _ _ _ (readCert_ok _ _ _ _ Hf0 Hc)).
    rewrite (bind_step _ _ _ _ _ (readCert_ok _ _ (bump s) _ Hf1 Ho)).
    unfold HGet, bind, query. simpl. split.
    + intros Hs. destruct (fault E (S (S (tick s)))); [reflexivity|].
      destruct Hs as [[=]|[e ->]]. reflexivity.
    + intros v Hf2 Hs. rewrite Hf2, Hs. reflexivity.
  - intros H. destruct (readCert_fails deviceCertsHash k s H) as [e He].
    exists e. unfold DeviceGet. fold k.
    rewrite (bind_step _ _ _ _ _ He). reflexivity.
  - intros c Hf0 Hc H.
    destruct (readCert_fails deviceOnboardCertsHash k (bump s) H) as [e He].
    exists e. unfold DeviceGet. fold k.
    rewrite (bind_step _ _ _ _ _ (readCert_ok _ _ _ _ Hf0 Hc)).
    rewrite (bind_step _ _ _ _ _ He). reflexivity.
Qed.

(** ** Telemetry *)

(** The entries of a stream; a key that does not exist is the empty
    stream, a key that holds a hash is not a stream. *)
Definition streamAt (r : gmap string RValue) (name : string)
    : option (list (gmap string string)) :=
  match r !! name with
  | None => Some []
  | Some (RStream es) => Some es
  | Some (RHash _) => None
  end.

Definition lineFeed : string := String "010"%char "".

(** The state after an entry was appended to a stream. *)
Definition appended (name body : string) (es : list (gmap string string))
    (s : State) : State :=
  bump (set_db (<[name := RStream (es ++ [mkStreamEntry body])]> (db s)) s).

Lemma writeProtobufToStream_ok name msg body es s :
  jsonpb_Marshal msg = Some body ->
  fault E (tick s) = false ->
  streamAt (db s) name = Some es ->
  writeProtobufToStream E name msg s = Done None (appended name body es s).
Proof.
  intros Hm Hf Hs. unfold writeProtobufToStream. rewrite Hm.
  unfold XAdd, bind, command. rewrite Hf.
  unfold Redis.XAdd, streamAt in *.
  destruct (db s !! name) as [[m|es']|]; [discriminate| |];
    injection Hs as <-; reflexivity.
Qed.

Lemma readerLines_appended name body es s lf :
  streamAt (db s) name = Some es ->
  readerLines {| Stream := name; LineFeed := lf |} (db (appended name body es s))
  = (readerLines {| Stream := name; LineFeed := lf |} (db s)
     ++ [body +:+ (if lf then lineFeed else "")])%list.
Proof.
  intros Hs. unfold readerLines, appended, streamAt in *. simpl.
  rewrite lookup_insert_eq.
  destruct (db s !! name) as [[m|es']|]; [discriminate| |];
    injection Hs as <-; rewrite map_app; simpl;
    unfold mkStreamEntry; rewrite lookup_insert_ne by done;
    rewrite lookup_singleton_eq; reflexivity.
Qed.

(** C9.  A nil message is rejected.  For a message whose device
    identifier reads as a UUID, whatever the cache of devices holds, each
    of the three writers appends the encoded message to the stream of its
    kind for that UUID and returns no error; the reader for the logs of
    that UUID, and the reader for its info, then yields the appended
    entry last. *)
Theorem telemetry_spec s :
  (WriteLogs E None s = Done (Some (Errorf "invalid nil message" [])) s /\
   WriteInfo E None s = Done (Some (Errorf "invalid nil message" [])) s /\
   WriteMetrics E None s = Done (Some (Errorf "invalid nil message" [])) s) /\
  (forall m u body es,
     uuid_FromString (LogDevID m) = Some u ->
     jsonpb_Marshal (MsgLogs m) = Some body ->
     fault E (tick s) = false ->
     streamAt (db s) (deviceLogsStream +:+ uuid_String u) = Some es ->
     let s' := appended (deviceLogsStream +:+ uuid_String u) body es s in
     WriteLogs E (Some m) s = Done None s' /\
     mgr s' = mgr s /\
     exists dr,
       GetLogsReader u s' = Done (Ok dr) s' /\
       readerLines dr (db s')
       = (readerLines dr (db s) ++ [body +:+ lineFeed])%list) /\
  (forall m u body es,
     uuid_FromString (InfoDevId m) = Some u ->
     jsonpb_Marshal (MsgInfo m) = Some body ->
     fault E (tick s) = false ->
     streamAt (db s) (deviceInfoSteram +:+ uuid_String u) = Some es ->
     let s' := appended (deviceInfoSteram +:+ uuid_String u) body es s in
     WriteInfo E (Some m) s = Done None s' /\
     mgr s' = mgr s /\
     exists dr,
       GetInfoReader u s' = Done (Ok dr) s' /\
       readerLines dr (db s')
       = (readerLines dr (db s) ++ [body +:+ lineFeed])%list) /\
  (forall m u body es,
     uuid_FromString (MetricDevID m) = Some u ->
     jsonpb_Marshal (MsgMetrics m) = Some body ->
     fault E (tick s) = false ->
     streamAt (db s) (deviceMetricsStream +:+ uuid_String u) = Some es ->
     let s' := appended (deviceMetricsStream +:+ uuid_String u) body es s in
     WriteMetrics E (Some m) s = Done None s' /\
     mgr s' = mgr s /\
     streamAt (db s') (deviceMetricsStream +:+ uuid_String u)
     = Some (es ++ [mkStreamEntry body])%list).
Proof.
  split_and!; try reflexivity.
  - intros m u body es Hu Hm Hf Hs s'. split_and!.
    + unfold WriteLogs. rewrite Hu.
      rewrite (bind_step _ _ _ _ _ (writeProtobufToStream_ok _ _ _ _ _ Hm Hf Hs)).
      reflexivity.
    + reflexivity.
    + eexists. split; [reflexivity|].
      by apply (readerLines_appended _ body es s true).
  - intros m u body es Hu Hm Hf Hs s'. split_and!.
    + unfold WriteInfo. rewrite Hu.
      rewrite (bind_step _ _ _ _ _ (writeProtobufToStream_ok _ _ _ _ _ Hm Hf Hs)).
      reflexivity.
    + reflexivity.
    + eexists. split; [reflexivity|].
      by apply (readerLines_appended _ body es s true).
  - intros m u body es Hu Hm Hf Hs s'. split_and!.
    + unfold WriteMetrics. rewrite Hu.
      rewrite (bind_step _ _ _ _ _ (writeProtobufToStream_ok _ _ _ _ _ Hm Hf Hs)).
      reflexivity.
    + reflexivity.
    + unfold s', appended, streamAt. simpl. by rewrite lookup_insert_eq.
Qed.

(** ** A malformed onboarding certificate *)

Lemma range_singleton (HE : EnvOK E) (k c : string) s :
  range E ({[ k := c ]} : gmap string string) s = Done [(k, c)] (bump s).
Proof.
  unfold range. f_equal.
  apply Permutation_singleton_r. rewrite (HE _ _ _).
  by rewrite map_to_list_singleton.
Qed.

(** The only onboarding record is not PEM: the refresh panics. *)
Lemma refreshCache_undecodable_pem (HE : EnvOK E) s k c :
  withinTTL (clock E (tick s)) (mgr s) = false ->
  fault E (S (tick s)) = false ->
  Redis.HGetAll onboardCertsHash (db s) = inr {[ k := c ]} ->
  pem_Decode c = None ->
  refreshCache E s = Panic nilDeref.
Proof.
  intros Hw Hf Hall Hpem. unfold refreshCache.
  unfold bind at 1, time_Now at 1. unfold bind at 1, getMgr at 1.
  cbn [mgr bump]. rewrite Hw. unfold HGetAll.
  rewrite (bind_step _ _ _ _ _ (query_ok _ (bump s) Hf)).
  cbn [db bump]. rewrite Hall.
  rewrite (bind_step _ _ _ _ _ (range_singleton HE k c _)).
  apply bind_panic. simpl. rewrite Hpem. reflexivity.
Qed.

(** The only onboarding record is PEM around bytes that are not a
    certificate: the refresh returns an error and changes nothing. *)
Lemma refreshCache_unparsable_der (HE : EnvOK E) s k c b :
  withinTTL (clock E (tick s)) (mgr s) = false ->
  fault E (S (tick s)) = false ->
  Redis.HGetAll onboardCertsHash (db s) = inr {[ k := c ]} ->
  pem_Decode c = Some b ->
  x509_ParseCertificate (Bytes b) = None ->
  refreshCache E s
  = Done (Some (Errorf
            "unable to convert data from %s to onboard certificate: %v"
            [Some (lib_error "x509")]))
         (bump (bump (bump s))).
Proof.
  intros Hw Hf Hall Hpem Hder. unfold refreshCache.
  unfold bind at 1, time_Now at 1. unfold bind at 1, getMgr at 1.
  cbn [mgr bump]. rewrite Hw. unfold HGetAll.
  rewrite (bind_step _ _ _ _ _ (query_ok _ (bump s) Hf)).
  cbn [db bump]. rewrite Hall.
  rewrite (bind_step _ _ _ _ _ (range_singleton HE k c _)).
  unfold bind. simpl. rewrite Hpem, Hder. reflexivity.
Qed.

End Proofs.

(** * Further properties of the manager

    The operations that the statements above do not reach: the
    administration of onboarding certificates, the clearing of devices,
    the low-level writers, and how the operations compose. *)

Section Coverage.

Context `{X : Ext} (E : Env).

(** ** The time-to-live *)

(** [SetCacheTimeout]. *)
Definition SetCacheTimeout (timeout : Z) : M unit :=
  modMgr (set_cacheTimeout timeout).

(** The gate of [refreshCache] is open, whatever the clock reads from the
    last refresh on, once the timeout is zero or less; and it is open on a
    manager that has never refreshed, for every clock reading from the
    Unix epoch on and every timeout up to 9223372036 seconds, because the
    elapsed time saturates at the largest duration. *)
Theorem withinTTL_open now d :
  ((cacheTimeout d <= 0)%Z -> (lastUpdate d <= now)%Z ->
   withinTTL now d = false) /\
  (lastUpdate d = zeroTime -> (0 <= now)%Z ->
   (cacheTimeout d <= 9223372036)%Z ->
   withinTTL now d = false).
Proof.
  unfold withinTTL, time_Sub, maxDuration, minDuration, zeroTime. split.
  - intros Ht Hl. apply Z.ltb_ge. lia.
  - intros -> Hn Ht. apply Z.ltb_ge. lia.
Qed.

(** [SetCacheTimeout] changes the timeout and nothing else; with zero,
    every later call whose clock is not behind the last refresh reloads
    the cache. *)
Theorem SetCacheTimeout_zero s now :
  (lastUpdate (mgr s) <= now)%Z ->
  exists s',
    SetCacheTimeout 0 s = Done tt s' /\
    mgr s' = set_cacheTimeout 0 (mgr s) /\ db s' = db s /\
    withinTTL now (mgr s') = false.
Proof.
  intros Hl. eexists. split; [reflexivity|]. simpl. split_and!; try done.
  unfold withinTTL, time_Sub, maxDuration, minDuration. simpl.
  apply Z.ltb_ge. lia.
Qed.

(** A refresh never writes: whatever it returns, the database and the
    timeout are as before. *)
Theorem refreshCache_reads_only s r s' :
  refreshCache E s = Done r s' ->
  db s' = db s /\ cacheTimeout (mgr s') = cacheTimeout (mgr s).
Proof.
  intros H. apply refreshCache_cases in H as [Hdb Hst].
  split; [exact Hdb|].
  destruct Hst as [_ _ ->|e _ _ ->|e oc _ _ ->|e oc dc _ _ _ ->
                  |oc dc ds _ _ _ _ _ ->]; reflexivity.
Qed.

(** After a refresh that was due and ran to its end, a second call whose
    clock reading is not earlier and is less than the timeout later does
    nothing: it reads the clock and returns, the cache and the database
    untouched. *)
Theorem refreshCache_twice s s1 :
  withinTTL (clock E (tick s)) (mgr s) = false ->
  refreshCache E s = Done None s1 ->
  (clock E (tick s) <= clock E (tick s1))%Z ->
  (clock E (tick s1) - clock E (tick s)
   < cacheTimeout (mgr s) * 1000000000)%Z ->
  lastUpdate (mgr s1) = clock E (tick s) /\
  refreshCache E s1 = Done None (bump s1).
Proof.
  intros Hw H Hle Hlt. apply refreshCache_cases in H as [_ Hst].
  destruct Hst as [Hw' _ _| | | |oc dc ds _ _ _ _ _ Hm]; try congruence.
  assert (Hl : lastUpdate (mgr s1) = clock E (tick s)) by (rewrite Hm; done).
  assert (Hc : cacheTimeout (mgr s1) = cacheTimeout (mgr s))
    by (rewrite Hm; done).
  split; [exact Hl|]. apply refreshCache_fresh.
  unfold withinTTL, time_Sub, maxDuration, minDuration.
  rewrite Hl, Hc. apply Z.ltb_lt. lia.
Qed.

(** ** Dropping keys *)

(** A key of the database that does not exist is not created by a
    deletion. *)
Definition staysGone (r r' : gmap string RValue) : Prop :=
  forall k, r !! k = None -> r' !! k = None.

Lemma staysGone_refl r : staysGone r r.
Proof. intros k H. exact H. Qed.

Lemma staysGone_trans r1 r2 r3 :
  staysGone r1 r2 -> staysGone r2 r3 -> staysGone r1 r3.
Proof. intros H1 H2 k H. apply H2, H1, H. Qed.

Lemma Del_staysGone k r : staysGone r (Redis.Del k r).2.
Proof.
  unfold Redis.Del. destruct (r !! k) eqn:Hk; simpl; [|apply staysGone_refl].
  intros k' H. destruct (decide (k' = k)) as [->|Hne].
  - apply lookup_delete_eq.
  - by rewrite lookup_delete_ne.
Qed.

Lemma HDel_staysGone h k r : staysGone r (Redis.HDel h k r).2.
Proof.
  unfold Redis.HDel.
  destruct (r !! h) as [[m|es]|] eqn:Hh; simpl; try apply staysGone_refl.
  destruct (m !! k); simpl; try apply staysGone_refl.
  intros k' H. assert (k' <> h) by congruence.
  case_bool_decide.
  - by rewrite lookup_delete_ne.
  - by rewrite lookup_insert_ne.
Qed.

Lemma Del_gone k r : (Redis.Del k r).1 = inr 1%Z -> (Redis.Del k r).2 !! k = None.
Proof.
  unfold Redis.Del. destruct (r !! k); simpl; [|discriminate].
  intros _. apply lookup_delete_eq.
Qed.

Lemma Del_absent k r : r !! k = None -> Redis.Del k r = (inr 0%Z, r).
Proof. unfold Redis.Del. intros ->. reflexivity. Qed.

Lemma HDel_absent h k r e :
  Redis.HGet h k r = inl e ->
  (Redis.HDel h k r).2 = r /\ (Redis.HDel h k r).1 <> inr 1%Z.
Proof.
  unfold Redis.HGet, Redis.HDel.
  destruct (r !! h) as [[m|es]|]; simpl; try (split; [reflexivity|discriminate]).
  destruct (m !! k); [discriminate|]. split; [reflexivity|discriminate].
Qed.

(** The keys are the ones [transactionDrop] accepts. *)
Definition droppable (keys : list (list string)) : Prop :=
  forall k, k ∈ keys -> length k = 1 \/ length k = 2.

Lemma droppable_cons k keys :
  droppable (k :: keys) <-> (length k = 1 \/ length k = 2) /\ droppable keys.
Proof.
  unfold droppable. split.
  - intros H. split; [apply H; left | intros k' Hin; apply H; by right].
  - intros [Hk H] k' Hin. apply elem_of_cons in Hin as [->|Hin]; auto.
Qed.

Lemma transactionDrop_from_total keys res s :
  droppable keys ->
  exists res' s',
    transactionDrop_from E keys res s = Done res' s' /\
    (is_Some res -> is_Some res').
Proof.
  revert res s. induction keys as [|key keys IH]; intros res s Hd; simpl.
  - exists res, s. auto.
  - apply droppable_cons in Hd as [Hk Hd].
    destruct key as [|k0 [|k1 [|]]]; simpl in Hk; try lia.
    + unfold bind, Del, command.
      destruct (fault E (tick s)).
      * destruct (IH (Some (dropError
          "couldn't drop %s with error %d/%v (previous error in transaction %v)"
          (Some redis_IO) res)) (bump s) Hd) as (res' & s' & -> & Hs).
        exists res', s'. split; [reflexivity|]. intros _. by apply Hs.
      * destruct (Redis.Del k0 (db s)) as [r db'].
        match goal with
        | |- context [transactionDrop_from E keys ?R ?S] =>
            destruct (IH R S Hd) as (res' & s' & -> & Hs)
        end.
        exists res', s'. split; [reflexivity|]. intros Hres. apply Hs.
        destruct r as [e|[|[]|]]; done.
    + unfold bind, HDel, command.
      destruct (fault E (tick s)).
      * destruct (IH (Some (dropError
          "couldn't drop %s[%s] with error %d/%v (previous error in transaction %v)"
          (Some redis_IO) res)) (bump s) Hd) as (res' & s' & -> & Hs).
        exists res', s'. split; [reflexivity|]. intros _. by apply Hs.
      * destruct (Redis.HDel k0 k1 (db s)) as [r db'].
        match goal with
        | |- context [transactionDrop_from E keys ?R ?S] =>
            destruct (IH R S Hd) as (res' & s' & -> & Hs)
        end.
        exists res', s'. split; [reflexivity|]. intros Hres. apply Hs.
        destruct r as [e|[|[]|]]; done.
Qed.

Lemma transactionDrop_from_panics keys res s :
  ~ droppable keys ->
  transactionDrop_from E keys res s
  = Panic "transactionDrop should never be called with keys that are less than 1 or more than 2 elements".
Proof.
  revert res s. induction keys as [|key keys IH]; intros res s Hn; simpl.
  - exfalso. apply Hn. intros k Hin. by apply elem_of_nil in Hin.
  - rewrite droppable_cons in Hn.
    destruct key as [|k0 [|k1 [|]]]; try reflexivity.
    + unfold bind. destruct (Del E k0 s) as [r s1|] eqn:Hc.
      * apply IH. intros Hd. apply Hn. split; [by left|done].
      * unfold Del, command in Hc.
        destruct (fault E (tick s)); [discriminate|].
        destruct (Redis.Del k0 (db s)). discriminate.
    + unfold bind. destruct (HDel E k0 k1 s) as [r s1|] eqn:Hc.
      * apply IH. intros Hd. apply Hn. split; [by right|done].
      * unfold HDel, command in Hc.
        destruct (fault E (tick s)); [discriminate|].
        destruct (Redis.HDel k0 k1 (db s)). discriminate.
Qed.

(** [transactionDrop] panics exactly when one of its keys has neither one
    nor two elements, however far down the list that key is; otherwise it
    returns after one command per key, without stopping at a failure, and
    leaves the cache alone. *)
Theorem transactionDrop_runs keys s :
  (droppable keys ->
   exists res s',
     transactionDrop E keys s = Done res s' /\
     tick s' = tick s + length keys /\ mgr s' = mgr s) /\
  (~ droppable keys -> exists msg, transactionDrop E keys s = Panic msg).
Proof.
  split.
  - intros Hd.
    destruct (transactionDrop_from_total keys None s Hd) as (res & s' & H & _).
    exists res, s'. split; [exact H|].
    apply transactionDrop_from_done in H as (Hm & Ht & _). auto.
  - intros Hn. eexists. by apply transactionDrop_from_panics.
Qed.

Lemma HDel_one_existed h k r :
  (Redis.HDel h k r).1 = inr 1%Z -> exists v, Redis.HGet h k r = inr v.
Proof.
  unfold Redis.HDel, Redis.HGet.
  destruct (r !! h) as [[m|es]|]; simpl; try discriminate.
  destruct (m !! k); simpl; [eauto|discriminate].
Qed.

Lemma Del_one_existed k r :
  (Redis.Del k r).1 = inr 1%Z -> is_Some (r !! k).
Proof.
  unfold Redis.Del. destruct (r !! k); simpl; [eauto|discriminate].
Qed.

Lemma HDel_always_gone h k r v :
  Redis.HGet h k (Redis.HDel h k r).2 <> inr v.
Proof.
  unfold Redis.HDel, Redis.HGet.
  destruct (r !! h) as [[m|es]|] eqn:Hh; simpl; rewrite ?Hh; try discriminate.
  destruct (m !! k) eqn:Hk; simpl.
  - case_bool_decide.
    + rewrite lookup_delete_eq. discriminate.
    + rewrite lookup_insert_eq, lookup_delete_eq. discriminate.
  - rewrite Hh, Hk. discriminate.
Qed.

Lemma command_staysGone {A}
    (f : gmap string RValue -> (RedisErr + A) * gmap string RValue) s r s' :
  (forall d, staysGone d (f d).2) ->
  command E f s = Done r s' -> staysGone (db s) (db s').
Proof.
  intros Hf H. apply command_done in H as (_ & _ & [(_ & _ & ->)|(_ & _ & ->)]);
    [apply staysGone_refl | apply Hf].
Qed.

(** What a drop that returns no error has done. *)
Lemma transactionDrop_from_clean keys res s s' :
  transactionDrop_from E keys res s = Done None s' ->
  staysGone (db s) (db s') /\
  (forall h k, [h; k] ∈ keys -> exists v, Redis.HGet h k (db s) = inr v) /\
  (forall k, [k] ∈ keys -> is_Some (db s !! k) /\ db s' !! k = None).
Proof.
  revert res s. induction keys as [|key keys IH]; intros res s; simpl.
  - intros [= _ <-]. split; [apply staysGone_refl|].
    split; intros; by match goal with H : _ ∈ [] |- _ => apply elem_of_nil in H end.
  - destruct key as [|k0 [|k1 [|]]]; try discriminate.
    + intros H. apply bind_done in H as (r & s1 & Hc & H).
      pose proof (command_staysGone _ _ _ _ (Del_staysGone k0) Hc) as Hg1.
      apply command_done in Hc as (_ & _ & Hc).
      pose proof (transactionDrop_from_done E _ _ _ _ _ H) as (_ & _ & _ & Hn).
      destruct (Hn eq_refl) as [Hr _].
      destruct r as [e|[|[]|]]; try discriminate.
      destruct Hc as [(_ & [=] & _)|(_ & Hr1 & Hdb)]. symmetry in Hr1.
      apply IH in H as (Hg & Hh & Hk).
      assert (Hs1 : shrinks (db s) (db s1))
        by (rewrite Hdb; apply Del_shrinks).
      split; [eapply staysGone_trans; eauto|]. split.
      * intros h k Hin. apply elem_of_cons in Hin as [[=]|Hin].
        destruct (Hh h k Hin) as [v Hv]. exists v. by apply Hs1.
      * intros k Hin. apply elem_of_cons in Hin as [[= ->]|Hin].
        -- split; [by apply Del_one_existed|].
           apply Hg. rewrite Hdb. by apply Del_gone.
        -- destruct (Hk k Hin) as [Hex Hgo]. split; [|exact Hgo].
           destruct (db s !! k) eqn:Hl; [eauto|].
           apply Hg1 in Hl. rewrite Hl in Hex. by destruct Hex.
    + intros H. apply bind_done in H as (r & s1 & Hc & H).
      pose proof (command_staysGone _ _ _ _ (HDel_staysGone k0 k1) Hc) as Hg1.
      apply command_done in Hc as (_ & _ & Hc).
      pose proof (transactionDrop_from_done E _ _ _ _ _ H) as (_ & _ & _ & Hn).
      destruct (Hn eq_refl) as [Hr _].
      destruct r as [e|[|[]|]]; try discriminate.
      destruct Hc as [(_ & [=] & _)|(_ & Hr1 & Hdb)]. symmetry in Hr1.
      apply IH in H as (Hg & Hh & Hk).
      assert (Hs1 : shrinks (db s) (db s1))
        by (rewrite Hdb; apply HDel_shrinks).
      split; [eapply staysGone_trans; eauto|]. split.
      * intros h k Hin. apply elem_of_cons in Hin as [[= -> ->]|Hin].
        -- by apply HDel_one_existed.
        -- destruct (Hh h k Hin) as [v Hv]. exists v. by apply Hs1.
      * intros k Hin. apply elem_of_cons in Hin as [[=]|Hin].
        destruct (Hk k Hin) as [Hex Hgo]. split; [|exact Hgo].
        destruct (db s !! k) eqn:Hl; [eauto|].
        apply Hg1 in Hl. rewrite Hl in Hex. by destruct Hex.
Qed.

(** [transactionDrop] returns no error only when every hash field and
    every key it was given existed and has been removed: to drop what does
    not exist is reported as an error. *)
Theorem transactionDrop_clean keys s s' :
  transactionDrop E keys s = Done None s' ->
  (forall h k, [h; k] ∈ keys ->
     (exists v, Redis.HGet h k (db s) = inr v) /\
     forall v, Redis.HGet h k (db s') <> inr v) /\
  (forall k, [k] ∈ keys -> is_Some (db s !! k) /\ db s' !! k = None).
Proof.
  intros H. pose proof (transactionDrop_from_clean _ _ _ _ H) as (_ & Hh & Hk).
  apply transactionDrop_from_done in H as (_ & _ & _ & Hn).
  destruct (Hn eq_refl) as [_ Hgone].
  split; [|exact Hk]. intros h k Hin. split; [by apply Hh|].
  intros v. by apply Hgone.
Qed.

(** Dropping only what does not exist changes nothing in the database. *)
Lemma transactionDrop_from_nothing keys res s res' s' :
  (forall h k, [h; k] ∈ keys -> exists e, Redis.HGet h k (db s) = inl e) ->
  (forall k, [k] ∈ keys -> db s !! k = None) ->
  transactionDrop_from E keys res s = Done res' s' ->
  db s' = db s.
Proof.
  revert res s. induction keys as [|key keys IH]; intros res s Hh Hk; simpl.
  - intros [= _ <-]. reflexivity.
  - destruct key as [|k0 [|k1 [|]]]; try discriminate.
    + intros H. apply bind_done in H as (r & s1 & Hc & H).
      apply command_done in Hc as (_ & _ & Hc).
      assert (Hdb : db s1 = db s).
      { destruct Hc as [(_ & _ & ->)|(_ & _ & ->)]; [done|].
        rewrite Del_absent; [done|]. apply Hk. left. }
      apply IH in H; [congruence| |]; rewrite Hdb.
      * intros h k Hin. apply Hh. by right.
      * intros k Hin. apply Hk. by right.
    + intros H. apply bind_done in H as (r & s1 & Hc & H).
      apply command_done in Hc as (_ & _ & Hc).
      assert (Hdb : db s1 = db s).
      { destruct Hc as [(_ & _ & ->)|(_ & _ & ->)]; [done|].
        destruct (Hh k0 k1) as [e He]; [left|].
        by apply HDel_absent in He as [-> _]. }
      apply IH in H; [congruence| |]; rewrite Hdb.
      * intros h k Hin. apply Hh. by right.
      * intros k Hin. apply Hk. by right.
Qed.

(** ** Removing a device *)

(** The keys [DeviceRemove] drops for the device whose UUID prints as [k]. *)
Definition deviceKeys (k : string) : list (list string) :=
  [[deviceCertsHash; k]; [deviceConfigsHash; k]; [deviceOnboardCertsHash; k];
   [deviceSerialsHash; k]; [deviceInfoSteram +:+ k]; [deviceLogsStream +:+ k];
   [deviceMetricsStream +:+ k]].

Lemma droppable_deviceKeys k : droppable (deviceKeys k).
Proof.
  intros key Hin. unfold deviceKeys in Hin.
  repeat (apply elem_of_cons in Hin as [->|Hin]; [simpl; auto|]).
  by apply elem_of_nil in Hin.
Qed.

Lemma DeviceRemove_failed u s err s1 :
  transactionDrop E (deviceKeys (uuid_String u)) s = Done (Some err) s1 ->
  DeviceRemove E (Some u) s
  = Done (Some (Errorf "unable to remove the device %s %v" [Some err])) s1.
Proof.
  intros H. unfold DeviceRemove. cbv beta iota zeta. unfold deviceKeys in H.
  rewrite (bind_step _ _ _ _ _ H). reflexivity.
Qed.

Lemma transactionDrop_from_field h k keys res s r s1 :
  HDel E h k s = Done r s1 ->
  exists res1,
    transactionDrop_from E ([h; k] :: keys) res s
    = transactionDrop_from E keys res1 s1.
Proof.
  intros H. eexists. simpl. rewrite (bind_step _ _ _ _ _ H). reflexivity.
Qed.

(** When one of the four records of a device is missing, as the serial of
    a device registered without one is, [DeviceRemove] returns an error
    after its seven commands and does not refresh the cache; the device
    certificate record is gone all the same, unless the connection failed
    on the first command. *)
Theorem DeviceRemove_missing_record u s h e :
  h ∈ [deviceCertsHash; deviceConfigsHash; deviceOnboardCertsHash;
       deviceSerialsHash] ->
  Redis.HGet h (uuid_String u) (db s) = inl e ->
  exists err s',
    DeviceRemove E (Some u) s
    = Done (Some (Errorf "unable to remove the device %s %v" [Some err])) s' /\
    mgr s' = mgr s /\ tick s' = tick s + 7 /\
    (fault E (tick s) = false ->
     forall v, Redis.HGet deviceCertsHash (uuid_String u) (db s') <> inr v).
Proof.
  intros Hh Hget. set (k := uuid_String u).
  destruct (transactionDrop_from_total (deviceKeys k) None s
              (droppable_deviceKeys k)) as (res & s' & H & _).
  pose proof (transactionDrop_from_done E _ _ _ _ _ H) as (Hm & Ht & _ & _).
  destruct res as [err|].
  2:{ exfalso. apply transactionDrop_from_clean in H as (_ & Hex & _).
      destruct (Hex h k) as [v Hv]; [|fold k in Hget; congruence].
      unfold deviceKeys.
      repeat (apply elem_of_cons in Hh as [->|Hh]; [by repeat constructor|]).
      by apply elem_of_nil in Hh. }
  exists err, s'. split; [by apply DeviceRemove_failed|].
  split; [exact Hm|]. split; [exact Ht|].
  intros Hf v Hv. unfold deviceKeys in H.
  pose proof (command_ok E (Redis.HDel deviceCertsHash k) s Hf) as Hc.
  destruct (transactionDrop_from_field _ _
              (tail (deviceKeys k)) None _ _ _ Hc) as [res1 Heq].
  unfold deviceKeys, tail in Heq. rewrite Heq in H.
  apply transactionDrop_from_done in H as (_ & _ & Hs & _).
  assert (Hdb : db (bump (set_db (Redis.HDel deviceCertsHash k (db s)).2 s))
                = (Redis.HDel deviceCertsHash k (db s)).2) by reflexivity.
  apply Hs in Hv. rewrite Hdb in Hv. by apply HDel_always_gone in Hv.
Qed.

(** [DeviceRemove] of a UUID of which the database holds nothing returns
    an error and leaves the database and the cache as they were. *)
Theorem DeviceRemove_unknown u s :
  (forall h, h ∈ [deviceCertsHash; deviceConfigsHash; deviceOnboardCertsHash;
                  deviceSerialsHash] ->
     exists e, Redis.HGet h (uuid_String u) (db s) = inl e) ->
  (forall p, p ∈ [deviceInfoSteram; deviceLogsStream; deviceMetricsStream] ->
     db s !! (p +:+ uuid_String u) = None) ->
  exists err s',
    DeviceRemove E (Some u) s
    = Done (Some (Errorf "unable to remove the device %s %v" [Some err])) s' /\
    mgr s' = mgr s /\ db s' = db s.
Proof.
  intros Hh Hp. set (k := uuid_String u).
  destruct (transactionDrop_from_total (deviceKeys k) None s
              (droppable_deviceKeys k)) as (res & s' & H & _).
  pose proof (transactionDrop_from_done E _ _ _ _ _ H) as (Hm & _ & _ & _).
  assert (Hdb : db s' = db s).
  { eapply transactionDrop_from_nothing; [| |exact H].
    - intros h k' Hin. unfold deviceKeys in Hin.
      repeat (apply elem_of_cons in Hin as [[= -> ->]|Hin];
              [apply Hh; by repeat constructor|]).
      repeat (apply elem_of_cons in Hin as [[=]|Hin]).
      by apply elem_of_nil in Hin.
    - intros k' Hin. unfold deviceKeys in Hin.
      do 4 (apply elem_of_cons in Hin as [[=]|Hin]).
      repeat (apply elem_of_cons in Hin as [[= ->]|Hin];
              [apply Hp; by repeat constructor|]).
      by apply elem_of_nil in Hin. }
  destruct res as [err|].
  2:{ exfalso. apply transactionDrop_from_clean in H as (_ & Hex & _).
      destruct (Hex deviceCertsHash k) as [v Hv]; [by repeat constructor|].
      destruct (Hh deviceCertsHash) as [e He]; [by repeat constructor|].
      fold k in He. congruence. }
  exists err, s'. split; [by apply DeviceRemove_failed|]. auto.
Qed.

(** ** What a write leaves in the database *)

(** From [r] to [r'], the field [k] of hash [h] was set to [v] and nothing
    else changed. *)
Definition wrote (h k v : string) (r r' : gmap string RValue) : Prop :=
  Redis.HGet h k r' = inr v /\
  (forall h' k', (h', k') <> (h, k) ->
     Redis.HGet h' k' r' = Redis.HGet h' k' r) /\
  (forall key, key <> h -> r' !! key = r !! key).

Lemma HSet_wrote h k v r b :
  (Redis.HSet h k v r).1 = inr b -> wrote h k v r (Redis.HSet h k v r).2.
Proof.
  unfold wrote, Redis.HSet, Redis.HGet.
  destruct (r !! h) as [[m|es]|] eqn:Hh; simpl; try discriminate; intros _.
  - split; [by rewrite !lookup_insert_eq|]. split.
    + intros h' k' Hne. destruct (decide (h' = h)) as [->|Hh'].
      * rewrite lookup_insert_eq, Hh.
        rewrite lookup_insert_ne; [done|]. intros ->. by apply Hne.
      * by rewrite lookup_insert_ne.
    + intros key Hne. by rewrite lookup_insert_ne.
  - split; [by rewrite lookup_insert_eq, lookup_singleton_eq|]. split.
    + intros h' k' Hne. destruct (decide (h' = h)) as [->|Hh'].
      * rewrite lookup_insert_eq, Hh.
        rewrite lookup_singleton_ne; [done|]. intros ->. by apply Hne.
      * by rewrite lookup_insert_ne.
    + intros key Hne. by rewrite lookup_insert_ne.
Qed.

Lemma HSet_failed h k v r e :
  (Redis.HSet h k v r).1 = inl e -> (Redis.HSet h k v r).2 = r.
Proof.
  unfold Redis.HSet. destruct (r !! h) as [[m|es]|]; simpl; try discriminate.
  reflexivity.
Qed.

Lemma hsetSave_success hash key v s s' :
  hsetSave E hash key v s = Done None s' ->
  mgr s' = mgr s /\ tick s' = S (S (tick s)) /\
  wrote hash key v (db s) (db s').
Proof.
  unfold hsetSave, HSet, Save. intros H.
  apply bind_done in H as (r1 & s1 & Hc & H).
  apply command_done in Hc as (Hm & Ht & Hc).
  destruct r1 as [e|b]; [discriminate|].
  apply bind_done in H as (r2 & s2 & Hq & H).
  apply query_done in Hq as [-> _].
  destruct r2; [discriminate|]. injection H as <-.
  simpl. split; [exact Hm|]. split; [congruence|].
  destruct Hc as [(_ & [=] & _)|(_ & Hb & ->)].
  eapply HSet_wrote. symmetry. exact Hb.
Qed.

Lemma hsetSave_failed hash key v s e s' :
  hsetSave E hash key v s = Done (Some e) s' ->
  mgr s' = mgr s /\
  (db s' = db s \/ wrote hash key v (db s) (db s')).
Proof.
  unfold hsetSave, HSet, Save. intros H.
  apply bind_done in H as (r1 & s1 & Hc & H).
  apply command_done in Hc as (Hm & Ht & Hc).
  destruct r1 as [e1|b].
  - injection H as _ <-. split; [exact Hm|]. left.
    destruct Hc as [(_ & _ & Hdb)|(_ & Hb & ->)]; [exact Hdb|].
    eapply HSet_failed. symmetry. exact Hb.
  - apply bind_done in H as (r2 & s2 & Hq & H).
    apply query_done in Hq as [-> _].
    destruct r2; [|discriminate]. injection H as _ <-.
    split; [exact Hm|]. right. simpl.
    destruct Hc as [(_ & [=] & _)|(_ & Hb & ->)].
    eapply HSet_wrote. symmetry. exact Hb.
Qed.

Lemma writeCert_success cert hash uuid force s s' :
  writeCert E cert hash uuid force s = Done None s' ->
  mgr s' = mgr s /\ tick s' = S (S (S (tick s))) /\
  wrote hash uuid (ax_PemEncodeCert cert) (db s) (db s').
Proof.
  unfold writeCert, HGet, HSet, Save.
  destruct (bool_decide (hash = "")); [discriminate|].
  intros H. apply bind_done in H as (old & s0 & Hq & H).
  apply query_done in Hq as [-> _].
  destruct (match old with inl _ => false | inr _ => negb force end);
    [discriminate|].
  apply bind_done in H as (r1 & s1 & Hc & H).
  apply command_done in Hc as (Hm & Ht & Hc).
  destruct r1 as [e|b]; [discriminate|].
  destruct (negb b && negb force); [discriminate|].
  apply bind_done in H as (r2 & s2 & Hq & H).
  apply query_done in Hq as [-> _].
  destruct r2; [discriminate|]. injection H as <-.
  simpl in *. split; [exact Hm|]. split; [congruence|].
  destruct Hc as [(_ & [=] & _)|(_ & Hb & ->)].
  eapply HSet_wrote. symmetry. exact Hb.
Qed.

Lemma wrote_then h1 k1 v1 h2 k2 v2 r r1 r2 :
  (h1, k1) <> (h2, k2) ->
  wrote h1 k1 v1 r r1 -> wrote h2 k2 v2 r1 r2 ->
  Redis.HGet h1 k1 r2 = inr v1.
Proof. intros Hne (H1 & _) (_ & H2 & _). by rewrite H2. Qed.

(** ** Onboarding certificates *)

Lemma serialList_lookup (serials : list string) (acc : gmap string bool) x :
  foldl (fun acc s => <[s := true]> acc) acc serials !! x
  = if decide (x ∈ serials) then Some true else acc !! x.
Proof.
  revert acc. induction serials as [|y serials IH]; intros acc; simpl.
  - destruct (decide (x ∈ [])) as [Hin|]; [by apply elem_of_nil in Hin|done].
  - rewrite IH. destruct (decide (x ∈ serials)) as [Hin|Hn].
    + rewrite decide_True; [done|by right].
    + destruct (decide (x = y)) as [->|Hne].
      * rewrite decide_True by left. apply lookup_insert_eq.
      * rewrite decide_False.
        -- by rewrite lookup_insert_ne.
        -- intros [?|?]%elem_of_cons; done.
Qed.

(** The serial set that [OnboardRegister] puts into the cache. *)
Definition serialSet (serials : list string) : gmap string bool :=
  foldl (fun acc s => <[s := true]> acc) ∅ serials.

Lemma serialSet_spec serials x :
  is_Some (serialSet serials !! x) <-> x ∈ serials.
Proof.
  unfold serialSet. rewrite serialList_lookup.
  destruct (decide (x ∈ serials)); [by split; eauto|].
  rewrite lookup_empty. split; [by intros [? ?]|done].
Qed.

Lemma OnboardRegister_done c serials s s' :
  OnboardRegister E (Some c) serials s = Done None s' ->
  let cn := getOnboardCertName (CommonName c) in
  exists v r1,
    msgpack_MarshalSerials serials = Some v /\
    wrote onboardCertsHash cn (ax_PemEncodeCert (Raw c)) (db s) r1 /\
    wrote onboardSerialsHash cn v r1 (db s') /\
    tick s' = tick s + 5 /\
    mgr s' = set_onboardCerts
               (Some (<[Raw c := serialSet serials]> (rd (onboardCerts (mgr s)))))
               (mgr s).
Proof.
  intros H cn. unfold OnboardRegister in H.
  apply bind_done in H as (err & s1 & Hw & H).
  destruct err as [e|]; [discriminate|].
  apply writeCert_success in Hw as (Hm1 & Ht1 & Hw1).
  destruct (msgpack_MarshalSerials serials) as [v|]; [|discriminate].
  apply bind_done in H as (err & s2 & Hs & H).
  destruct err as [e|]; [discriminate|].
  apply hsetSave_success in Hs as (Hm2 & Ht2 & Hw2).
  apply bind_done in H as ([] & s3 & [= <-] & H). injection H as <-.
  exists v, (db s1). simpl. rewrite Hm2, Hm1.
  split_and!; try done. lia.
Qed.

(** [OnboardRegister] refuses a nil certificate without touching anything.
    When it succeeds, the certificate is stored in PEM under its name and
    the encoded serial list beside it, and the cache maps the identity of
    the certificate to exactly the serials given: the set replaces the old
    one, it is not added to it; the entries of the other certificates and
    the rest of the cache are as before. *)
Theorem OnboardRegister_spec c serials s :
  OnboardRegister E None serials s
  = Done (Some (Errorf "empty nil certificate" [])) s /\
  forall s',
    OnboardRegister E (Some c) serials s = Done None s' ->
    let cn := getOnboardCertName (CommonName c) in
    Redis.HGet onboardCertsHash cn (db s') = inr (ax_PemEncodeCert (Raw c)) /\
    (exists v, msgpack_MarshalSerials serials = Some v /\
               Redis.HGet onboardSerialsHash cn (db s') = inr v) /\
    (exists set,
       rd (onboardCerts (mgr s')) !! Raw c = Some set /\
       forall x, is_Some (set !! x) <-> x ∈ serials) /\
    (forall raw, raw <> Raw c ->
       rd (onboardCerts (mgr s')) !! raw = rd (onboardCerts (mgr s)) !! raw) /\
    deviceCerts (mgr s') = deviceCerts (mgr s) /\
    devices (mgr s') = devices (mgr s) /\
    lastUpdate (mgr s') = lastUpdate (mgr s).
Proof.
  split; [reflexivity|]. intros s' H cn.
  apply OnboardRegister_done in H as (v & r1 & Hv & Hw1 & Hw2 & _ & Hm).
  fold cn in Hw1, Hw2. rewrite Hm. simpl. split_and!; try done.
  - eapply wrote_then; [|exact Hw1|exact Hw2]. intros [= ? _].
  - exists v. split; [exact Hv|]. by destruct Hw2.
  - exists (serialSet serials). split; [apply lookup_insert_eq|].
    apply serialSet_spec.
  - intros raw Hne. by rewrite lookup_insert_ne.
Qed.

(** [OnboardGet] refuses the empty name without reading anything.  After a
    successful [OnboardRegister], [OnboardGet] of the name under which the
    certificate was stored returns the certificate and the serials that
    were given, provided the name is not empty, the codecs read back what
    they wrote and the connection is up. *)
Theorem OnboardRegister_OnboardGet c serials s s' :
  OnboardRegister E (Some c) serials s = Done None s' ->
  let cn := getOnboardCertName (CommonName c) in
  cn <> "" ->
  ax_ParseCert (ax_PemEncodeCert (Raw c)) = Some c ->
  (forall v, msgpack_MarshalSerials serials = Some v ->
             msgpack_UnmarshalSerials v = Some serials) ->
  fault E (tick s') = false -> fault E (S (tick s')) = false ->
  OnboardGet E "" s' = Done (None, None, Some (Errorf "empty cn" [])) s' /\
  OnboardGet E cn s' = Done (Some c, Some serials, None) (bump (bump s')).
Proof.
  intros H cn Hcn Hpem Hmp Hf1 Hf2. split; [reflexivity|].
  apply OnboardRegister_done in H as (v & r1 & Hv & Hw1 & Hw2 & _ & _).
  fold cn in Hw1, Hw2.
  assert (Hc : Redis.HGet onboardCertsHash cn (db s')
               = inr (ax_PemEncodeCert (Raw c))).
  { eapply wrote_then; [|exact Hw1|exact Hw2]. intros [= ? _]. }
  destruct Hw2 as (Hs & _).
  unfold OnboardGet. rewrite bool_decide_eq_false_2 by done.
  assert (Hst : certStored (db s') onboardCertsHash cn c) by (eexists; eauto).
  rewrite (bind_step _ _ _ _ _ (readCert_ok E _ _ _ _ Hf1 Hst)).
  unfold HGet.
  rewrite (bind_step _ _ _ _ _ (query_ok E _ (bump s') Hf2)).
  simpl. rewrite Hs, (Hmp v Hv). reflexivity.
Qed.

Lemma droppable_two a b : droppable [a; b] <->
  (length a = 1 \/ length a = 2) /\ (length b = 1 \/ length b = 2).
Proof.
  rewrite !droppable_cons. split; [tauto|]. intros [? ?]. split_and!; try done.
  intros k Hin. by apply elem_of_nil in Hin.
Qed.

(** [OnboardClear] succeeds only when both hashes of the onboarding
    certificates existed; it has then removed them and emptied the
    onboarding part of the cache, leaving the devices alone.  When either
    hash does not exist, as when nothing has been registered, it returns
    an error and leaves the cache as it was. *)
Theorem OnboardClear_spec s :
  (forall s',
     OnboardClear E s = Done None s' ->
     is_Some (db s !! onboardCertsHash) /\
     is_Some (db s !! onboardSerialsHash) /\
     db s' !! onboardCertsHash = None /\
     db s' !! onboardSerialsHash = None /\
     mgr s' = set_onboardCerts (Some ∅) (mgr s)) /\
  (db s !! onboardCertsHash = None \/ db s !! onboardSerialsHash = None ->
   exists err s',
     OnboardClear E s
     = Done (Some (Errorf
         "unable to remove the onboarding certificates/serials: %v"
         [Some err])) s' /\
     mgr s' = mgr s).
Proof.
  split.
  - intros s' H. unfold OnboardClear in H.
    apply bind_done in H as (err & s1 & Hd & H).
    destruct err as [e|]; [discriminate|].
    apply bind_done in H as ([] & s2 & [= <-] & H). injection H as <-.
    pose proof (transactionDrop_from_done E _ _ _ _ _ Hd) as (Hm & _).
    apply transactionDrop_from_clean in Hd as (_ & _ & Hk).
    destruct (Hk onboardCertsHash) as [? ?]; [by repeat constructor|].
    destruct (Hk onboardSerialsHash) as [? ?]; [by repeat constructor|].
    simpl. rewrite Hm. auto.
  - intros Hno.
    destruct (transactionDrop_from_total
                [[onboardCertsHash]; [onboardSerialsHash]] None s)
      as (res & s' & H & _).
    { apply droppable_two. simpl. auto. }
    pose proof (transactionDrop_from_done E _ _ _ _ _ H) as (Hm & _).
    destruct res as [err|].
    + exists err, s'. unfold OnboardClear.
      unfold transactionDrop. rewrite (bind_step _ _ _ _ _ H). auto.
    + exfalso. apply transactionDrop_from_clean in H as (_ & _ & Hk).
      destruct (Hk onboardCertsHash) as [[? H1] _]; [by repeat constructor|].
      destruct (Hk onboardSerialsHash) as [[? H2] _]; [by repeat constructor|].
      destruct Hno; congruence.
Qed.

(** [OnboardRemove] of a name under which neither a certificate nor a
    serial list is stored returns an error and changes neither the
    database nor the cache; the cache is refreshed only after both
    deletions succeeded. *)
Theorem OnboardRemove_unknown cn s :
  (exists e, Redis.HGet onboardSerialsHash cn (db s) = inl e) ->
  (exists e, Redis.HGet onboardCertsHash cn (db s) = inl e) ->
  exists err s',
    OnboardRemove E cn s = Done (Some err) s' /\
    mgr s' = mgr s /\ db s' = db s /\ tick s' = tick s + 2.
Proof.
  intros Hs Hc.
  destruct (transactionDrop_from_total
              [[onboardSerialsHash; cn]; [onboardCertsHash; cn]] None s)
    as (res & s' & H & _).
  { apply droppable_two. simpl. auto. }
  pose proof (transactionDrop_from_done E _ _ _ _ _ H) as (Hm & Ht & _).
  assert (Hdb : db s' = db s).
  { eapply transactionDrop_from_nothing; [| |exact H].
    - intros h k Hin.
      apply elem_of_cons in Hin as [[= -> ->]|Hin]; [exact Hs|].
      apply elem_of_cons in Hin as [[= -> ->]|Hin]; [exact Hc|].
      by apply elem_of_nil in Hin.
    - intros k Hin. repeat (apply elem_of_cons in Hin as [[=]|Hin]).
      by apply elem_of_nil in Hin. }
  destruct res as [err|].
  - exists err, s'. unfold OnboardRemove, transactionDrop.
    rewrite (bind_step _ _ _ _ _ H). auto.
  - exfalso. apply transactionDrop_from_clean in H as (_ & Hh & _).
    destruct (Hh onboardSerialsHash cn) as [v Hv]; [by repeat constructor|].
    destruct Hs as [e He]. congruence.
Qed.

(** ** Listings *)

(** [DeviceList] returns, in some order and each once, exactly the UUIDs
    that are keys of the devices cache its refresh left. *)
Theorem DeviceList_spec (HE : EnvOK E) s l s' :
  DeviceList E s = Done (Ok l) s' ->
  exists s1,
    refreshCache E s = Done None s1 /\
    NoDup l /\
    forall u, u ∈ l <-> is_Some (rd (devices (mgr s1)) !! u).
Proof.
  unfold DeviceList. intros H.
  apply bind_done in H as (err & s1 & Hr & H).
  destruct err as [e|]; [discriminate|].
  apply bind_done in H as (d & s2 & [= <- <-] & H).
  apply bind_done in H as (l' & s3 & [= <- <-] & H).
  injection H as <- <-. exists s1. split; [exact Hr|].
  pose proof (HE (tick s1) _ (map_to_list (rd (devices (mgr s1))))) as Hp.
  split.
  - rewrite Hp. apply NoDup_fst_map_to_list.
  - intros u. rewrite Hp. rewrite list_elem_of_fmap. split.
    + intros ([u' dev] & -> & Hin). apply elem_of_map_to_list in Hin. eauto.
    + intros [dev Hdev]. exists (u, dev). split; [done|].
      by apply elem_of_map_to_list.
Qed.

(** The Common Name of the certificate that the bytes [raw] are, when
    they are one. *)
Definition commonNameOf (raw : string) : option string :=
  CommonName <$> x509_ParseCertificate raw.

Arguments commonNameOf : simpl never.

Lemma OnboardList_from_spec l cns :
  OnboardList_from l cns
  = match mapM (fun e => commonNameOf e.1) l with
    | Some ns => Ok (cns ++ ns)%list
    | None => Err (Errorf "unable to parse certificate: %v"
                          [Some (lib_error "x509")])
    end.
Proof.
  revert cns. induction l as [|[raw set] l IH]; intros cns; simpl.
  - by rewrite app_nil_r.
  - assert (Hc : commonNameOf raw = CommonName <$> x509_ParseCertificate raw)
      by reflexivity.
    rewrite Hc. destruct (x509_ParseCertificate raw) as [cert|]; simpl; [|done].
    rewrite IH. destruct (mapM _ l); simpl; [|done].
    by rewrite <- app_assoc.
Qed.

(** [OnboardList] returns one Common Name for each identity in the
    onboarding cache its refresh left, the same name as often as there
    are certificates that bear it; it fails as soon as one cached
    identity does not parse as a certificate. *)
Theorem OnboardList_spec (HE : EnvOK E) s s1 :
  refreshCache E s = Done None s1 ->
  let oc := rd (onboardCerts (mgr s1)) in
  ((exists raw, is_Some (oc !! raw) /\ commonNameOf raw = None) ->
   OnboardList E s
   = Done (Err (Errorf "unable to parse certificate: %v"
                       [Some (lib_error "x509")])) (bump s1)) /\
  ((forall raw, is_Some (oc !! raw) -> is_Some (commonNameOf raw)) ->
   exists cns,
     OnboardList E s = Done (Ok cns) (bump s1) /\
     length cns = size oc /\
     forall cn, cn ∈ cns <->
       exists raw, is_Some (oc !! raw) /\ commonNameOf raw = Some cn).
Proof.
  intros Hr oc.
  assert (Heq : OnboardList E s
                = Done (OnboardList_from
                          (shuffle E (tick s1) _ (map_to_list oc)) [])
                       (bump s1)).
  { unfold OnboardList. rewrite (bind_step _ _ _ _ _ Hr). reflexivity. }
  rewrite Heq, OnboardList_from_spec. clear Heq.
  pose proof (HE (tick s1) _ (map_to_list oc)) as Hp.
  set (l := shuffle E (tick s1) _ (map_to_list oc)) in *.
  assert (Hl : forall raw, (exists set, (raw, set) ∈ l) <-> is_Some (oc !! raw)).
  { intros raw. split.
    - intros [set Hin]. rewrite Hp in Hin.
      apply elem_of_map_to_list in Hin. eauto.
    - intros [set Hs]. exists set. rewrite Hp. by apply elem_of_map_to_list. }
  split.
  - intros (raw & Hin & Hnone). apply Hl in Hin as [set Hin].
    destruct (mapM _ l) as [ns|] eqn:Hm; [|reflexivity].
    apply mapM_Some in Hm.
    apply list_elem_of_lookup in Hin as [i Hi].
    destruct (Forall2_lookup_l _ _ _ _ _ Hm Hi) as (n & _ & Hn).
    simpl in Hn. congruence.
  - intros Hall.
    destruct (mapM (fun e => commonNameOf e.1) l) as [ns|] eqn:Hm.
    + exists ns. split; [reflexivity|]. apply mapM_Some in Hm. split.
      * rewrite <- (Forall2_length _ _ _ Hm).
        rewrite (Permutation_length Hp), length_map_to_list. reflexivity.
      * intros cn. split.
        -- intros Hin. apply list_elem_of_lookup in Hin as [i Hi].
           destruct (Forall2_lookup_r _ _ _ _ _ Hm Hi) as ([raw set] & Hx & Hn).
           exists raw. split; [|exact Hn]. apply Hl. exists set.
           apply list_elem_of_lookup. eauto.
        -- intros (raw & Hin & Hn). apply Hl in Hin as [set Hin].
           apply list_elem_of_lookup in Hin as [i Hi].
           destruct (Forall2_lookup_l _ _ _ _ _ Hm Hi) as (n & Hx & Hn').
           simpl in Hn'. apply list_elem_of_lookup. exists i. congruence.
    + exfalso. apply mapM_None in Hm.
      apply Exists_exists in Hm as ([raw set] & Hin & Hnone).
      simpl in Hnone. destruct (Hall raw) as [cn Hcn].
      { apply Hl. exists set. first [exact Hin | by apply list_elem_of_In]. }
      congruence.
Qed.

(** ** Clearing the devices *)

(** The keys [DeviceClear] drops when the [range] over the cache lists the
    devices as [l]. *)
Definition clearKeys (l : list (UUID * deviceStorage)) : list (list string) :=
  ([[deviceConfigsHash]; [deviceSerialsHash]; [deviceCertsHash];
    [deviceOnboardCertsHash]]
   ++ concat (map (fun '(u, _) =>
                     [[deviceMetricsStream +:+ uuid_String u];
                      [deviceLogsStream +:+ uuid_String u];
                      [deviceInfoSteram +:+ uuid_String u]]) l))%list.

Lemma elem_of_concat {A} (x : A) (ls : list (list A)) :
  x ∈ concat ls <-> exists l, x ∈ l /\ l ∈ ls.
Proof.
  rewrite list_elem_of_In, in_concat. split.
  - intros (l & Hl & Hx). exists l. by rewrite !list_elem_of_In.
  - intros (l & Hx & Hl). exists l. by rewrite <- !list_elem_of_In.
Qed.

Lemma clearKeys_elem l key :
  key ∈ clearKeys l ->
  exists k, key = [k] /\
    (k ∈ [deviceConfigsHash; deviceSerialsHash; deviceCertsHash;
          deviceOnboardCertsHash] \/
     exists u dev p, (u, dev) ∈ l /\
       p ∈ [deviceMetricsStream; deviceLogsStream; deviceInfoSteram] /\
       k = p +:+ uuid_String u).
Proof.
  unfold clearKeys. rewrite elem_of_app. intros [Hin|Hin].
  - repeat (apply elem_of_cons in Hin as [->|Hin];
            [eexists; split; [reflexivity|left; by repeat constructor]|]).
    by apply elem_of_nil in Hin.
  - apply elem_of_concat in Hin as (ks & Hin & Hks).
    apply list_elem_of_fmap in Hks as ([u dev] & -> & Hl).
    repeat (apply elem_of_cons in Hin as [->|Hin];
            [eexists; split; [reflexivity|];
             right; exists u, dev; eexists; split; [exact Hl|];
             split; [|reflexivity]; by repeat constructor|]).
    by apply elem_of_nil in Hin.
Qed.

Lemma clearKeys_stream l u dev p :
  (u, dev) ∈ l ->
  p ∈ [deviceMetricsStream; deviceLogsStream; deviceInfoSteram] ->
  [p +:+ uuid_String u] ∈ clearKeys l.
Proof.
  intros Hl Hp. unfold clearKeys. apply elem_of_app. right.
  apply elem_of_concat.
  exists [[deviceMetricsStream +:+ uuid_String u];
          [deviceLogsStream +:+ uuid_String u];
          [deviceInfoSteram +:+ uuid_String u]].
  split.
  - repeat (apply elem_of_cons in Hp as [->|Hp]; [by repeat constructor|]).
    by apply elem_of_nil in Hp.
  - apply list_elem_of_fmap. by exists (u, dev).
Qed.

Lemma droppable_clearKeys l : droppable (clearKeys l).
Proof.
  intros key Hin. apply clearKeys_elem in Hin as (k & -> & _). by left.
Qed.

Lemma DeviceClear_unfold s :
  DeviceClear E s
  = bind (transactionDrop E
            (clearKeys (shuffle E (tick s) _
                          (map_to_list (rd (devices (mgr s)))))))
      (fun err =>
         match err with
         | Some e =>
             ret (Some (Errorf "unable to remove all devices %v" [Some e]))
         | None =>
             bind (modMgr (set_deviceCerts (Some ∅)))
               (fun _ => bind (modMgr (set_devices (Some ∅)))
                           (fun _ => ret None))
         end) (bump s).
Proof. reflexivity. Qed.

(** [DeviceClear] works from the cache as it is, without a refresh.  It
    succeeds only when the four device hashes and the three streams of
    every cached device existed; it has then removed them all and emptied
    both device maps of the cache.  When one of the four hashes does not
    exist, as when no device was ever registered, it returns an error and
    leaves the cache as it was. *)
Theorem DeviceClear_spec (HE : EnvOK E) s :
  let hashes := [deviceConfigsHash; deviceSerialsHash; deviceCertsHash;
                 deviceOnboardCertsHash] in
  (forall s',
     DeviceClear E s = Done None s' ->
     mgr s' = set_devices (Some ∅) (set_deviceCerts (Some ∅) (mgr s)) /\
     (forall h, h ∈ hashes -> is_Some (db s !! h) /\ db s' !! h = None) /\
     (forall u p,
        is_Some (rd (devices (mgr s)) !! u) ->
        p ∈ [deviceMetricsStream; deviceLogsStream; deviceInfoSteram] ->
        is_Some (db s !! (p +:+ uuid_String u)) /\
        db s' !! (p +:+ uuid_String u) = None)) /\
  ((exists h, h ∈ hashes /\ db s !! h = None) ->
   exists err s',
     DeviceClear E s
     = Done (Some (Errorf "unable to remove all devices %v" [Some err])) s' /\
     mgr s' = mgr s).
Proof.
  intros hashes. rewrite DeviceClear_unfold.
  set (l := shuffle E (tick s) _ (map_to_list (rd (devices (mgr s))))).
  assert (Hhash : forall h, h ∈ hashes -> [h] ∈ clearKeys l).
  { intros h Hh. unfold clearKeys. apply elem_of_app. left.
    unfold hashes in Hh.
    repeat (apply elem_of_cons in Hh as [->|Hh]; [by repeat constructor|]).
    by apply elem_of_nil in Hh. }
  split.
  - intros s' H. apply bind_done in H as (err & s1 & Hd & H).
    destruct err as [e|]; [discriminate|].
    apply bind_done in H as ([] & s2 & [= <-] & H).
    apply bind_done in H as ([] & s3 & [= <-] & H). injection H as <-.
    pose proof (transactionDrop_from_done E _ _ _ _ _ Hd) as (Hm & _).
    apply transactionDrop_from_clean in Hd as (_ & _ & Hk).
    simpl in *. rewrite Hm. split; [reflexivity|]. split.
    + intros h Hh. by apply Hk, Hhash.
    + intros u p [dev Hdev] Hp. apply Hk.
      apply (clearKeys_stream l u dev p); [|exact Hp].
      unfold l. rewrite (HE _ _ _). by apply elem_of_map_to_list.
  - intros (h & Hh & Hnone).
    destruct (transactionDrop_from_total (clearKeys l) None (bump s)
                (droppable_clearKeys l)) as (res & s' & H & _).
    pose proof (transactionDrop_from_done E _ _ _ _ _ H) as (Hm & _).
    destruct res as [err|].
    + exists err, s'. unfold transactionDrop.
      rewrite (bind_step _ _ _ _ _ H). auto.
    + exfalso. apply transactionDrop_from_clean in H as (_ & _ & Hk).
      destruct (Hk h (Hhash h Hh)) as [[? Hex] _]. simpl in Hex. congruence.
Qed.

End Coverage.

(** * The embedding at work *)

Import Sample.

Lemma EnvOK_quiet t0 u : EnvOK (quiet t0 u).
Proof. intros n A l. reflexivity. Qed.

Lemma EnvOK_backwards t0 u : EnvOK (backwards t0 u).
Proof. intros n A l. simpl. apply reverse_Permutation. Qed.

(** The scenario of the onboarding round trip: a registered pair checks
    out, is used by a registration, and is then refused, while the other
    serial of the certificate still checks out. *)
Example onboarding_round_trip :
  let s1 := stateOf (OnboardCheck E0 (Some certC) "S1" (onboarded 3600)) in
  let s2 := stateOf (DeviceRegister E0 (Some certX) (Some certC) "S1" s1) in
  let s3 := stateOf (OnboardCheck E0 (Some certC) "S1" s2) in
  OnboardCheck E0 (Some certC) "S1" (onboarded 3600) = Done None s1 /\
  DeviceRegister E0 (Some certX) (Some certC) "S1" s1 = Done (Ok uA) s2 /\
  OnboardCheck E0 (Some certC) "S1" s2 = Done (Some (usedSerial "S1")) s3 /\
  OnboardCheck E0 (Some certC) "S2" s3 = Done None (bump (bump s3)).
Proof.
  split_and!; vm_compute; reflexivity.
Qed.

(** The three conditions under which [OnboardCheck] of [certC] with S1
    is to succeed hold in the cache that the call consults, namely the
    cache [refreshCache] leaves, and yet the call panics. *)
Definition validPairPanics (s : State) : Prop :=
  let s1 := stateOf (refreshCache E0 s) in
  refreshCache E0 s = Done None s1 /\
  rd (onboardCerts (mgr s1)) !! Raw certC
  = Some {[ "S1" := true; "S2" := true ]} /\
  rd (devices (mgr s1)) = {[ uA := {| onboard := None; serial := "" |} ]} /\
  OnboardCheck E0 (Some certC) "S1" s = Panic nilDeref.

(** C1.  After an operator has registered the onboarding certificate
    [certC] with serials S1 and S2 and a device has been registered with
    no onboarding certificate, [OnboardCheck] of [certC] with S1 does not
    succeed although the identity of [certC] is a key of [onboardCerts],
    S1 is in its set and the only cached device has no onboarding
    certificate, hence none equal to [certC]: the call panics on the nil
    certificate of that device.  This holds with a cache served within its
    time-to-live (timeout 3600) and with a cache reloaded from the
    database on every call (timeout 0). *)
Theorem OnboardCheck_valid_pair_panics :
  validPairPanics (registeredBare 3600) /\ validPairPanics (registeredBare 0).
Proof.
  split; split_and!; vm_compute; reflexivity.
Qed.

(** C5.  With a database whose only onboarding-certificate record is not
    PEM, [pem.Decode] returns no block and [refreshCache] panics on it;
    so do [OnboardCheck] and [OnboardList], which call it first. *)
Theorem refreshCache_garbage_pem_panics :
  pem_Decode "garbage" = None /\
  refreshCache E0 garbageCert = Panic nilDeref /\
  OnboardCheck E0 (Some certC) "S1" garbageCert = Panic nilDeref /\
  OnboardList E0 garbageCert = Panic nilDeref.
Proof.
  split_and!; vm_compute; reflexivity.
Qed.

(** C2, a counterexample.  The refresh of [brokenName] returns an error
    after it has replaced [onboardCerts]: the cache no longer knows the
    onboarding certificate it knew, while the other two maps are as
    before. *)
Lemma refreshCache_error_replaces_onboardCerts :
  let s' := stateOf (refreshCache E0 brokenName) in
  refreshCache E0 brokenName
  = Done (Some (Errorf
            "unable to convert device uuid from Redis hash name %s: %v"
            [Some (lib_error "uuid")])) s' /\
  onboardCerts (mgr brokenName) = Some {[ Raw certC := {[ "S1" := true ]} ]} /\
  onboardCerts (mgr s') = Some ∅ /\
  onboardCerts (mgr s') <> onboardCerts (mgr brokenName).
Proof.
  split_and!; [vm_compute; reflexivity..|].
  vm_compute. discriminate.
Qed.

Lemma refreshCache_error_partial_witness :
  let s' := stateOf (refreshCache E0 brokenName) in
  devices (mgr s') = devices (mgr brokenName) /\
  lastUpdate (mgr s') = lastUpdate (mgr brokenName) /\
  withinTTL (clock E0 (tick s')) (mgr s') = false.
Proof.
  intros s'.
  assert (H : refreshCache E0 brokenName
              = Done (Some (Errorf
                  "unable to convert device uuid from Redis hash name %s: %v"
                  [Some (lib_error "uuid")])) s')
    by (vm_compute; reflexivity).
  destruct (refreshCache_error_partial E0 _ _ _ H)
    as (_ & Hd & Hl & _ & _ & Hlater).
  split; [exact Hd|]. split; [exact Hl|].
  apply Hlater. vm_compute. discriminate.
Defined.

(** C4, a counterexample.  With a time-to-live of an hour, a device is
    registered and at once removed: [DeviceRemove] returns success, its
    refresh does nothing, and the device is still in both maps of the
    cache; [DeviceList] still lists it and [DeviceCheckCert] still returns
    its UUID for its certificate. *)
Lemma DeviceRemove_within_ttl_keeps_device :
  let s := registeredFull 3600 in
  let s1 := stateOf (DeviceRemove E0 (Some uA) s) in
  let s2 := stateOf (DeviceList E0 s1) in
  rd (devices (mgr s)) !! uA
  = Some {| onboard := Some certC; serial := "S1" |} /\
  DeviceRemove E0 (Some uA) s = Done None s1 /\
  rd (devices (mgr s1)) !! uA
  = Some {| onboard := Some certC; serial := "S1" |} /\
  rd (deviceCerts (mgr s1)) !! Raw certX = Some uA /\
  DeviceList E0 s1 = Done (Ok [uA]) s2 /\
  DeviceCheckCert E0 (Some certX) s2 = Done (Ok (Some uA)) (bump s2).
Proof.
  split_and!; vm_compute; reflexivity.
Qed.

Lemma canonical_registeredFull : canonical uA (db (registeredFull 0)).
Proof.
  assert (H1 : db (registeredFull 0) !! deviceCertsHash
               = Some (RHash {[ uuid_String uA := pem_Encode (Raw certX) ]}))
    by (vm_compute; reflexivity).
  assert (H2 : db (registeredFull 0) !! deviceOnboardCertsHash
               = Some (RHash {[ uuid_String uA := pem_Encode (Raw certC) ]}))
    by (vm_compute; reflexivity).
  assert (H3 : db (registeredFull 0) !! deviceSerialsHash
               = Some (RHash {[ uuid_String uA := "S1" ]}))
    by (vm_compute; reflexivity).
  intros h k v Hh Hget _. unfold Redis.HGet in Hget.
  destruct Hh as [-> | [-> | ->]];
    [rewrite H1 in Hget | rewrite H2 in Hget | rewrite H3 in Hget];
    (destruct (decide (k = uuid_String uA)) as [->|Hne]; [reflexivity|]);
    rewrite lookup_singleton_ne in Hget by done; discriminate.
Defined.

Lemma DeviceRemove_refresh_witness :
  (let s := registeredFull 3600 in
   mgr (stateOf (DeviceRemove E0 (Some uA) s)) = mgr s) /\
  (let s := registeredFull 0 in
   let s' := stateOf (DeviceRemove E0 (Some uA) s) in
   absent uA (mgr s') /\
   (forall l s'', DeviceList E0 s' = Done (Ok l) s'' -> uA ∉ l)).
Proof.
  split.
  - intros s.
    assert (H : DeviceRemove E0 (Some uA) s
                = Done None (stateOf (DeviceRemove E0 (Some uA) s)))
      by (vm_compute; reflexivity).
    apply (DeviceRemove_refresh E0 (EnvOK_quiet _ _) _ _ _ H).
    vm_compute. reflexivity.
  - intros s s'.
    assert (H : DeviceRemove E0 (Some uA) s = Done None s')
      by (vm_compute; reflexivity).
    destruct (DeviceRemove_refresh E0 (EnvOK_quiet _ _) _ _ _ H) as [_ Hpast].
    destruct Hpast as (Hab & Hlist & _).
    + vm_compute. reflexivity.
    + exact canonical_registeredFull.
    + split; [exact Hab | exact Hlist].
Defined.

(** C10, a counterexample.  The cache holds a device without an onboarding
    certificate, and [OnboardCheck] of a certificate that is not an
    onboarding certificate returns the unknown-certificate error; of
    [certC] with a serial that is not in its set, the unknown-serial
    error.  Neither call panics. *)
Lemma OnboardCheck_nil_onboard_returns :
  let s := registeredBare 3600 in
  rd (devices (mgr s)) !! uA = Some {| onboard := None; serial := "" |} /\
  OnboardCheck E0 (Some certB) "S1" s
  = Done (Some (InvalidCertError "unknown onboarding certificate")) (bump s) /\
  OnboardCheck E0 (Some certC) "S9" s
  = Done (Some (InvalidSerialError "unknown serial: S9")) (bump s).
Proof.
  split_and!; vm_compute; reflexivity.
Qed.

Lemma hasNilOnboard_registeredBare :
  hasNilOnboard (mgr (stateOf (refreshCache E0 (registeredBare 0)))).
Proof.
  exists uA, {| onboard := None; serial := "" |}.
  split; vm_compute; reflexivity.
Defined.

Lemma validSerial_registeredBare :
  validSerial (mgr (stateOf (refreshCache E0 (registeredBare 0))))
              (Raw certC) "S1".
Proof.
  exists {[ "S1" := true; "S2" := true ]}. split; [vm_compute; reflexivity|].
  left. exists true. vm_compute. reflexivity.
Defined.

Lemma unused_registeredBare :
  ~ used (mgr (stateOf (refreshCache E0 (registeredBare 0)))) (Raw certC) "S1".
Proof.
  assert (Hd : rd (devices (mgr (stateOf (refreshCache E0 (registeredBare 0)))))
               = {[ uA := {| onboard := None; serial := "" |} ]})
    by (vm_compute; reflexivity).
  intros (u & dev & Hl & oc & Ho & _). rewrite Hd in Hl.
  apply lookup_singleton_Some in Hl as [_ <-]. discriminate.
Defined.

Lemma OnboardCheck_nil_onboard_witness :
  let s := registeredBare 0 in
  let s1 := stateOf (refreshCache E0 s) in
  (exists dev, rd (devices (mgr s1)) !! uA = Some dev /\ onboard dev = None) /\
  OnboardCheck E0 (Some certC) "S1" s = Panic nilDeref.
Proof.
  intros s s1.
  assert (H : refreshCache E0 s = Done None s1) by (vm_compute; reflexivity).
  destruct (OnboardCheck_nil_onboard E0 (EnvOK_quiet _ _) s s1 H)
    as [Hprod Hcrash].
  split.
  - apply Hprod.
    + vm_compute. reflexivity.
    + exists (uuid_String uA), (pem_Encode (Raw certX)).
      split; vm_compute; reflexivity.
    + intros (k & v & Hget & _). vm_compute in Hget. discriminate.
  - apply (Hcrash hasNilOnboard_registeredBare certC "S1").
    + exact validSerial_registeredBare.
    + exact unused_registeredBare.
Defined.


Lemma SetConfig_spec_witness :
  let s := registeredFull 3600 in
  let doc := {| Id := Some {| Uuid := uuid_String uA; Version := "7" |};
                ConfigBody := "apps" |} in
  (exists s', SetConfig E0 uA (Some doc) s = Done None s' /\
     Redis.HGet deviceConfigsHash (uuid_String uA) (db s')
     = inr "+;01234567-89ab-cdef-0123-456789abcdef;7;apps") /\
  SetConfig E0 (mkUUID 5) (Some doc) s
  = Done (Some (Errorf "mismatched UUID" [])) s.
Proof.
  intros s doc.
  destruct (SetConfig_spec E0 uA (Some doc) s) as (_ & _ & Hreg & _).
  destruct (SetConfig_spec E0 (mkUUID 5) (Some doc) s) as (_ & Hmis & _).
  split.
  - destruct (Hreg doc (bump s) eq_refl) as [_ Hok].
    + intros [[=]|(id & [= <-] & Hne)]. apply Hne. reflexivity.
    + vm_compute. reflexivity.
    + destruct (Hok "+;01234567-89ab-cdef-0123-456789abcdef;7;apps")
        as (s' & Hs & Hget).
      * exists {| onboard := Some certC; serial := "S1" |}.
        vm_compute. reflexivity.
      * vm_compute. reflexivity.
      * reflexivity.
      * reflexivity.
      * intros es Hes. vm_compute in Hes. discriminate.
      * exists s'. split; [exact Hs|exact Hget].
  - apply (Hmis doc eq_refl). right.
    exists {| Uuid := uuid_String uA; Version := "7" |}.
    split; [reflexivity|]. vm_compute. discriminate.
Defined.


Lemma DeviceGet_spec_witness :
  let s := stateOf (DeviceRegister E0 (Some certX) (Some certC) ""
                      (onboarded 3600)) in
  DeviceGet E0 (Some uA) s
  = Done (Some certX, Some certC, "", None) (bump (bump (bump s))) /\
  (exists e, DeviceGet E0 (Some (mkUUID 5)) s
             = Done (None, None, "", Some e) (bump s)).
Proof.
  intros s.
  destruct (DeviceGet_spec E0 uA s) as [Hok _].
  destruct (DeviceGet_spec E0 (mkUUID 5) s) as (_ & Hbad & _).
  split.
  - assert (Hc : certStored (db s) deviceCertsHash (uuid_String uA) certX).
    { exists (pem_Encode (Raw certX)). split; vm_compute; reflexivity. }
    assert (Ho : certStored (db s) deviceOnboardCertsHash (uuid_String uA) certC).
    { exists (pem_Encode (Raw certC)). split; vm_compute; reflexivity. }
    destruct (Hok certX certC eq_refl Hc eq_refl Ho) as [Hnoserial _].
    apply Hnoserial. right. exists redis_Nil. vm_compute. reflexivity.
  - apply Hbad. right. left. exists redis_Nil. vm_compute. reflexivity.
Defined.

Lemma telemetry_spec_witness :
  let s := start 3600 in
  let m := {| LogDevID := "01234567-89AB-CDEF-0123-456789abcdef";
              LogBody := "boot" |} in
  let name := deviceLogsStream +:+ uuid_String uA in
  let body := "{devID:01234567-89AB-CDEF-0123-456789abcdef,boot}" in
  rd (devices (mgr s)) !! uA = None /\
  WriteLogs E0 (Some m) s = Done None (appended name body [] s) /\
  readerLines {| Stream := name; LineFeed := true |}
              (db (appended name body [] s))
  = [body +:+ lineFeed].
Proof.
  intros s m name body.
  destruct (telemetry_spec E0 s) as (_ & Hlogs & _).
  assert (Hu : uuid_FromString (LogDevID m) = Some uA)
    by (vm_compute; reflexivity).
  destruct (Hlogs m uA body [] Hu eq_refl eq_refl eq_refl)
    as (Hw & _ & dr & Hr & Hlines).
  split; [reflexivity|]. split; [exact Hw|].
  injection Hr as <-. exact Hlines.
Defined.

